(** * Adversarial variational optimisation on a toy Gaussian simulator

    A shallow embedding of [code/toy-gaussian.py]: the critic network
    ([predict]), the critic loss ([loss_critic]), the score-function
    gradient estimator ([approx_grad_u]) and the training loop, together
    with the parts of the [proposals] and [nn] modules they call.

    Floating-point numbers are kept abstract: every definition is written
    over a type [T] of scalars with the operations the script applies to
    them (class [Scalar]).  Arrays are lists, matrices are lists of rows,
    Python dictionaries are association lists in insertion order.  The
    NumPy shape rules the script relies on (broadcasting, aligned inner
    dimensions) are written out and raise [ValueError] as NumPy does. *)

From Stdlib Require Import String QArith Qcanon.
From Stdlib Require Import List ZArith Lia Bool Permutation Arith.
Import ListNotations.
Local Close Scope Q_scope.
Local Close Scope Qc_scope.
Local Open Scope string_scope.
Local Open Scope list_scope.
Local Open Scope nat_scope.

Set Implicit Arguments.

(** ** Exceptions and the error monad *)

Inductive exn : Type :=
| KeyError (key : string)
| IndexError
| ValueError (what : string)
| ZeroDivisionError
| NameError (name : string).

Inductive res (A : Type) : Type :=
| Ok (a : A)
| Raise (e : exn).

Arguments Ok {A} a.
Arguments Raise {A} e.

Definition rbind {A B} (m : res A) (k : A -> res B) : res B :=
  match m with
  | Ok a => k a
  | Raise e => Raise e
  end.

Notation "x <- m ;; k" := (rbind m (fun x => k))
  (at level 61, m at next level, right associativity).
Notation "' pat <- m ;; k" := (rbind m (fun x => match x with pat => k end))
  (at level 61, pat pattern, m at next level, right associativity).

Fixpoint mapM {A B} (f : A -> res B) (l : list A) : res (list B) :=
  match l with
  | [] => Ok []
  | a :: l' => b <- f a ;; bs <- mapM f l' ;; Ok (b :: bs)
  end.

Fixpoint foldM {A S} (f : S -> A -> res S) (l : list A) (s : S) : res S :=
  match l with
  | [] => Ok s
  | a :: l' => s' <- f s a ;; foldM f l' s'
  end.

Definition of_option {A} (e : exn) (o : option A) : res A :=
  match o with
  | Some a => Ok a
  | None => Raise e
  end.

Fixpoint zip_with {A B C} (f : A -> B -> C) (u : list A) (v : list B) : list C :=
  match u, v with
  | a :: u', b :: v' => f a b :: zip_with f u' v'
  | _, _ => []
  end.

(** ** Scalars *)

(** The operations of Python floats that the script uses.  [lit] injects a
    decimal literal, [of_nat] an integer. *)
Class Scalar (T : Type) : Type := {
  s0 : T;
  s1 : T;
  sadd : T -> T -> T;
  ssub : T -> T -> T;
  smul : T -> T -> T;
  sdiv : T -> T -> T;
  sopp : T -> T;
  ssqrt : T -> T;
  sexp : T -> T;
  slog : T -> T;
  sleb : T -> T -> bool;
  of_nat : nat -> T;
  lit : Q -> T
}.

(** The identities of real arithmetic that the results on values use;
    the results on shapes, order and state do not depend on them. *)
Class ScalarLaws (T : Type) `{Scalar T} : Prop := {
  ssub_diag : forall x : T, ssub x x = s0;
  smul_0_r : forall x : T, smul x s0 = s0;
  sadd_0_r : forall x : T, sadd x s0 = x;
  sadd_0_l : forall x : T, sadd s0 x = x;
  sdiv_0_l : forall n : nat, n <> 0 -> sdiv s0 (of_nat n) = s0
}.

(** ** Random streams *)

(** [numpy.random.RandomState] and [scipy.stats.norm.rvs], as far as the
    script uses them.  Every draw returns the advanced state. *)
Class RandomGen (T : Type) : Type := {
  RandomState : Type;
  (** [RandomState(seed)] *)
  rs_seed : nat -> RandomState;
  (** one entry of [rng.randn(...)] *)
  rs_randn : RandomState -> T * RandomState;
  (** one entry of [rng.rand(...)] *)
  rs_rand : RandomState -> T * RandomState;
  (** [rng.permutation(n)] *)
  rs_permutation : nat -> RandomState -> list nat * RandomState;
  (** one entry of [norm.rvs(loc, scale, random_state)] *)
  rs_norm : T -> T -> RandomState -> T * RandomState
}.

Class RandomGenLaws (T : Type) `{RandomGen T} : Prop := {
  rs_permutation_perm :
    forall n s, Permutation (fst (rs_permutation n s)) (seq 0 n)
}.

(** [n] successive draws of [f]. *)
Fixpoint draws {S A} (f : S -> A * S) (n : nat) (s : S) : list A * S :=
  match n with
  | O => ([], s)
  | S n' => let (a, s1) := f s in
            let (l, s2) := draws f n' s1 in
            (a :: l, s2)
  end.

Section Arrays.

Context {T : Type} `{ST : Scalar T}.

Definition vec := list T.
Definition matrix := list (list T).

Definition shape_error : exn :=
  ValueError "operands could not be broadcast together".

(** NumPy broadcasting along one axis: equal lengths combine pointwise, a
    length-1 operand is stretched, anything else is an error. *)
Definition bcast {A B C} (f : A -> B -> res C) (u : list A) (v : list B)
  : res (list C) :=
  if length u =? length v then mapM (fun p => f (fst p) (snd p)) (combine u v)
  else match u, v with
       | [a], _ => mapM (f a) v
       | _, [b] => mapM (fun x => f x b) u
       | _, _ => Raise shape_error
       end.

(** [u op v] on one-dimensional arrays. *)
Definition broadcast2 (f : T -> T -> T) (u v : vec) : res vec :=
  bcast (fun a b => Ok (f a b)) u v.

(** [A op B] on two-dimensional arrays. *)
Definition broadcast2d (f : T -> T -> T) (A B : matrix) : res matrix :=
  bcast (broadcast2 f) A B.

(** [u += v]: the result must keep the shape of [u]. *)
Definition iadd (u v : vec) : res vec :=
  if length u =? length v then Ok (zip_with sadd u v)
  else match v with
       | [b] => Ok (map (fun x => sadd x b) u)
       | _ => Raise (ValueError "non-broadcastable output operand")
       end.

Definition vsum (v : vec) : T := fold_left sadd v s0.

(** [np.mean(v)] *)
Definition mean (v : vec) : T := sdiv (vsum v) (of_nat (length v)).

Definition sq (x : T) : T := smul x x.

Definition zeros (n : nat) : vec := repeat s0 n.

(** Inner product; [np.dot] refuses operands whose lengths differ. *)
Definition inner (u v : vec) : res T :=
  if length u =? length v then Ok (vsum (zip_with smul u v))
  else Raise (ValueError "shapes not aligned").

(** [np.dot(W, h.T).T] for a two-dimensional [W]: row [r] of the result
    holds the inner products of row [r] of [h] with the rows of [W]. *)
Definition dot_T (W h : matrix) : res matrix :=
  mapM (fun row => mapM (fun w => inner w row) W) h.

(** [np.dot(w, h.T).T] for a one-dimensional [w]. *)
Definition dot_T1 (w : vec) (h : matrix) : res vec :=
  mapM (fun row => inner w row) h.

(** [h + b] with [b] broadcast over the rows of [h]. *)
Definition add_bias (h : matrix) (b : vec) : res matrix :=
  mapM (fun row => broadcast2 sadd row b) h.

(** [a[j, :] = row]: a length-1 right-hand side is stretched over the row,
    and [j] must be in range. *)
Fixpoint set_row (a : matrix) (j : nat) (row : vec) : res matrix :=
  match a, j with
  | [], _ => Raise IndexError
  | old :: a', O =>
      if length row =? length old then Ok (row :: a')
      else match row with
           | [x] => Ok (map (fun _ => x) old :: a')
           | _ => Raise (ValueError "could not broadcast input array")
           end
  | old :: a', S j' => a'' <- set_row a' j' row ;; Ok (old :: a'')
  end.

(** [a[idx]] for a list of row indices. *)
Definition take_rows (a : matrix) (idx : list nat) : res matrix :=
  mapM (fun i => of_option IndexError (nth_error a i)) idx.

End Arrays.

(** ** Dictionaries *)

Section Dicts.

Context {V : Type}.

Definition dict := list (string * V).

Fixpoint dict_get (d : dict) (k : string) : res V :=
  match d with
  | [] => Raise (KeyError k)
  | (k', v) :: d' => if String.eqb k k' then Ok v else dict_get d' k
  end.

(** [d[k] = v] *)
Fixpoint dict_set (d : dict) (k : string) (v : V) : dict :=
  match d with
  | [] => [(k, v)]
  | (k', v') :: d' =>
      if String.eqb k k' then (k', v) :: d' else (k', v') :: dict_set d' k v
  end.

Definition keys (d : dict) : list string := map fst d.

End Dicts.

Arguments dict V : clear implicits.

(** ** The proposal distribution (module [proposals]) *)

Section Proposal.

Context {T : Type} `{ST : Scalar T} `{RG : RandomGen T}.

(** Modelled from the spec: [proposals.gaussian_draw] is not part of the
    sources.  Section 4.1: [n] independent draws, each a vector with one
    entry per parameter, entry [d] being Gaussian with mean [location[d]]
    and standard deviation [exp(log_scale[d])]. *)
Definition gaussian_draw (params : dict (@vec T)) (n_samples : nat)
    (rng : RandomState) : res (@matrix T * RandomState) :=
  mu <- dict_get params "location" ;;
  log_sigma <- dict_get params "log_scale" ;;
  let sigma := map sexp log_sigma in
  let (z, rng') := draws (draws rs_randn (length mu)) n_samples rng in
  thetas <- mapM (fun row => zs <- broadcast2 smul row sigma ;;
                             broadcast2 sadd zs mu) z ;;
  Ok (thetas, rng').

(** Modelled from the spec: [proposals.grad_gaussian_logpdf] is not part of
    the sources.  Section 4.1: [(theta_i - location_i) / variance_i] for the
    location and [(theta_i - location_i)^2 / variance_i - 1] for the log
    scale, with [variance_i = exp(log_scale_i)^2]. *)
Definition grad_gaussian_logpdf (params : dict (@vec T)) (theta : @vec T)
  : res (dict (@vec T)) :=
  mu <- dict_get params "location" ;;
  log_sigma <- dict_get params "log_scale" ;;
  let variance := map (fun l => sq (sexp l)) log_sigma in
  d <- broadcast2 ssub theta mu ;;
  g_mu <- broadcast2 sdiv d variance ;;
  q <- broadcast2 sdiv (map sq d) variance ;;
  Ok [("location", g_mu); ("log_scale", map (fun x => ssub x s1) q)].

(** Modelled from the spec: [proposals.grad_gaussian_entropy] is not part
    of the sources.  Section 4.1: 0 for every location component and 1 for
    every log-scale component. *)
Definition grad_gaussian_entropy (params : dict (@vec T))
  : res (dict (@vec T)) :=
  mu <- dict_get params "location" ;;
  log_sigma <- dict_get params "log_scale" ;;
  Ok [("location", map (fun _ => s0) mu);
      ("log_scale", map (fun _ => s1) log_sigma)].

(** ** The simulator *)

(** [simulator(theta, n_samples, random_state)], lines 31 to 35:
    [norm.rvs(size=n_samples, loc=theta[0], scale=np.exp(theta[1]),
    random_state=random_state).reshape(-1, 1)], one row for each draw. *)
Definition simulator (theta : @vec T) (n_samples : nat) (random_state : RandomState)
  : res (@matrix T * RandomState) :=
  loc <- of_option IndexError (nth_error theta 0) ;;
  log_scale <- of_option IndexError (nth_error theta 1) ;;
  let (xs, rng') := draws (rs_norm loc (sexp log_scale)) n_samples random_state in
  Ok (map (fun x => [x]) xs, rng').

(** [true_theta = np.array([0.5, np.log(0.5)])] *)
Definition true_theta : @vec T := [lit (1 # 2); slog (lit (1 # 2))].

(** The number of observations drawn at line 37. *)
Definition n_obs : nat := Z.to_nat 20000.

(** [X_obs = simulator(true_theta, 20000, random_state=123)] *)
Definition X_obs : @matrix T :=
  match simulator true_theta n_obs (rs_seed 123) with
  | Ok (X, _) => X
  | Raise _ => []
  end.

(** [n_params = len(true_theta)] *)
Definition n_params : nat := length (@true_theta).

(** [X_obs.shape[1]] *)
Definition n_features : nat :=
  match X_obs with
  | row :: _ => length row
  | [] => 0
  end.

End Proposal.

(** ** The critic *)

Section Critic.

Context {T : Type} `{ST : Scalar T}.

(** [{"W": [W_0, W_1, W_2], "b": [b_0, b_1, b_2]}]: two hidden layers and
    a linear output layer whose weight is one-dimensional. *)
Record CriticParams : Type := mkCritic {
  W_0 : @matrix T;
  W_1 : @matrix T;
  W_2 : @vec T;
  b_0 : @vec T;
  b_1 : @vec T;
  b_2 : @vec T
}.

(** Modelled from the spec: [nn.relu] is not part of the sources.
    Section 4.2: a leaky rectifier with negative slope [alpha]. *)
Definition relu (alpha : T) (x : T) : T :=
  if sleb s0 x then x else smul alpha x.

(** [predict(X, params)], lines 62 to 67. *)
Definition predict (X : @matrix T) (params : CriticParams) : res (@vec T) :=
  let h := X in
  h <- dot_T (W_0 params) h ;;
  h <- add_bias h (b_0 params) ;;
  let h := map (map (relu (lit (1 # 10)))) h in
  h <- dot_T (W_1 params) h ;;
  h <- add_bias h (b_1 params) ;;
  let h := map (map (relu (lit (1 # 10)))) h in
  h <- dot_T1 (W_2 params) h ;;
  broadcast2 sadd h (b_2 params).

End Critic.

Arguments CriticParams T : clear implicits.

(** ** Shapes *)

Definition shape := list (string * list nat).

Definition critic_shape {T} (p : CriticParams T) : shape :=
  [("W0", map (@length T) (W_0 p)); ("W1", map (@length T) (W_1 p));
   ("W2", [length (W_2 p)]); ("b0", [length (b_0 p)]);
   ("b1", [length (b_1 p)]); ("b2", [length (b_2 p)])].

Definition dict_shape {T} (d : dict (list T)) : shape :=
  map (fun kv => (fst kv, [length (snd kv)])) d.

Definition shape_eq_dec (a b : shape) : {a = b} + {a <> b} :=
  list_eq_dec (fun x y : string * list nat =>
    match string_dec (fst x) (fst y), list_eq_dec Nat.eq_dec (snd x) (snd y) with
    | left e1, left e2 =>
        left (eq_trans (surjective_pairing x)
               (eq_trans (f_equal2 pair e1 e2) (eq_sym (surjective_pairing y))))
    | right n, _ => right (fun e => n (f_equal fst e))
    | _, right n => right (fun e => n (f_equal snd e))
    end) a b.

(** ** Automatic differentiation *)

(** [autograd] is an external library: its two entry points are kept
    abstract.  [ag_elementwise_grad f X] is the gradient of the sum of the
    outputs of [f] with respect to the input matrix; [ag_grad f p] is the
    gradient of a scalar function of the critic parameters. *)
Class Autograd (T : Type) : Type := {
  ag_elementwise_grad :
    (@matrix T -> res (@vec T)) -> @matrix T -> res (@matrix T);
  ag_grad :
    (CriticParams T -> res T) -> CriticParams T -> res (CriticParams T)
}.

(** A gradient has the shape of the point it is taken at, and the forward
    pass runs first: what it raises is raised by the gradient. *)
Class AutogradLaws (T : Type) `{Autograd T} : Prop := {
  ag_elementwise_grad_ok : forall f X y,
    f X = Ok y ->
    exists G, ag_elementwise_grad f X = Ok G /\
              map (@length T) G = map (@length T) X;
  ag_elementwise_grad_raise : forall f X e,
    f X = Raise e -> ag_elementwise_grad f X = Raise e;
  ag_grad_ok : forall f p y,
    f p = Ok y ->
    exists g, ag_grad f p = Ok g /\ critic_shape g = critic_shape p;
  ag_grad_raise : forall f p e,
    f p = Raise e -> ag_grad f p = Raise e
}.

(** ** The optimizer (module [nn]) *)

(** Parameter structures the optimizer can update: both the critic's
    weights and the proposal's dictionary are updated entry by entry. *)
Class ParamStruct (T P : Type) : Type := {
  pshape : P -> shape;
  pmap : (T -> T) -> P -> P;
  pzip : (T -> T -> T) -> P -> P -> P
}.

Class ParamStructLaws (T P : Type) `{ParamStruct T P} : Prop := {
  pshape_pmap : forall f p, pshape (pmap f p) = pshape p;
  pshape_pzip : forall f p q, pshape p = pshape q -> pshape (pzip f p q) = pshape p
}.

#[export] Instance critic_struct {T} : ParamStruct T (CriticParams T) := {
  pshape := critic_shape;
  pmap f p := mkCritic (map (map f) (W_0 p)) (map (map f) (W_1 p)) (map f (W_2 p))
                       (map f (b_0 p)) (map f (b_1 p)) (map f (b_2 p));
  pzip f p q := mkCritic (zip_with (zip_with f) (W_0 p) (W_0 q))
                         (zip_with (zip_with f) (W_1 p) (W_1 q))
                         (zip_with f (W_2 p) (W_2 q))
                         (zip_with f (b_0 p) (b_0 q))
                         (zip_with f (b_1 p) (b_1 q))
                         (zip_with f (b_2 p) (b_2 q))
}.

#[export] Instance dict_struct {T} : ParamStruct T (dict (list T)) := {
  pshape := dict_shape;
  pmap f d := map (fun kv => (fst kv, map f (snd kv))) d;
  pzip f d e := zip_with (fun kv kw => (fst kv, zip_with f (snd kv) (snd kw))) d e
}.

Section Adam.

Context {T : Type} `{ST : Scalar T}.
Context {P : Type} `{PS : ParamStruct T P}.

(** Modelled from the spec: [nn.AdamOptimizer] is not part of the sources.
    Section 3 (OptimizerState) and section 4.4: the trial parameters, a
    first and a second moment of the same shape, and a step counter, next
    to the hyperparameters given at construction. *)
Record Adam : Type := mkAdam {
  ad_x : P;
  ad_m : P;
  ad_v : P;
  ad_i : nat;
  ad_step_size : T;
  ad_b1 : T;
  ad_b2 : T;
  ad_eps : T
}.

(** [x ** n] for a step count [n]. *)
Fixpoint spow (x : T) (n : nat) : T :=
  match n with
  | O => s1
  | S n' => smul x (spow x n')
  end.

(** Modelled from the spec: the constructor of [nn.AdamOptimizer].  The
    trial parameters start at the caller's parameters, the moments at
    zero, the counter at zero. *)
Definition adam_init (params : P) (step_size b1 b2 : T) : Adam :=
  mkAdam params (pmap (fun _ => s0) params) (pmap (fun _ => s0) params) 0
         step_size b1 b2 (lit (1 # 100000000)).

(** Modelled from the spec: one iteration of [AdamOptimizer.step], given
    the gradient [g] at the trial parameters.  Section 4.4: biased moments
    with their decay rates, bias correction with the current step count,
    [param -= step_size * m_hat / (sqrt(v_hat) + eps)], counter advanced
    once.  Section 7 (a): a gradient of another shape is fatal. *)
Definition adam_update (o : Adam) (g : P) : res Adam :=
  if shape_eq_dec (pshape g) (pshape (ad_x o)) then
    let b1 := ad_b1 o in
    let b2 := ad_b2 o in
    let m := pzip (fun m g => sadd (smul (ssub s1 b1) g) (smul b1 m)) (ad_m o) g in
    let v := pzip (fun v g => sadd (smul (ssub s1 b2) (sq g)) (smul b2 v)) (ad_v o) g in
    let mhat := pmap (fun m => sdiv m (ssub s1 (spow b1 (ad_i o + 1)))) m in
    let vhat := pmap (fun v => sdiv v (ssub s1 (spow b2 (ad_i o + 1)))) v in
    let d := pzip (fun mh vh => sdiv mh (sadd (ssqrt vh) (ad_eps o))) mhat vhat in
    let x := pzip (fun x d => ssub x (smul (ad_step_size o) d)) (ad_x o) d in
    Ok (mkAdam x m v (ad_i o + 1) (ad_step_size o) b1 b2 (ad_eps o))
  else Raise (ValueError "gradient shape differs from parameter shape").

(** Modelled from the spec: [AdamOptimizer.reset].  Section 4.4: counter
    and both moments zeroed, trial parameters kept. *)
Definition adam_reset (o : Adam) : Adam :=
  mkAdam (ad_x o) (pmap (fun _ => s0) (ad_x o)) (pmap (fun _ => s0) (ad_x o)) 0
         (ad_step_size o) (ad_b1 o) (ad_b2 o) (ad_eps o).

End Adam.

Arguments Adam T P : clear implicits.

(** ** The script's globals and its state *)

Inductive which : Type := Critic | Proposal.

(** Ghost events: what the script did, in order.  They are not data of the
    program; they let the statements below speak about the order of calls. *)
Inductive event : Type :=
| EvCreate (o : which)
| EvIter (o : which) (i : nat)
| EvLossCritic (batch_size : nat) (i : nat)
| EvApproxGradU (i : nat)
| EvMoveTo (o : which)
| EvReset (o : which)
| EvRecord (i : nat)
| EvPlot (i : nat).

Section Script.

Context {T : Type} `{ST : Scalar T} `{RG : RandomGen T} `{AG : Autograd T}.

(** The constants under "Global params". *)
Record Globals : Type := mkGlobals {
  batch_size : nat;
  n_epochs : nat;
  lambda_gp : T;
  gamma : T;
  make_plots : bool
}.

(** Their values in the script. *)
Definition source_globals : Globals :=
  mkGlobals 64 (300 + 1) (lit (25 # 1000)) (lit 5) true.

(** The mutable state of a run: the two parameter structures shared by
    their owner and their optimizer, the two optimizers once constructed,
    the loss trace, and NumPy's global random state, which every draw
    without a [random_state] advances.  The values the two parameter
    structures have when the optimizers are constructed (lines 44 and 59)
    are inputs of the model, and so is the global random state. *)
Record World : Type := mkWorld {
  params_critic : CriticParams T;
  params_proposal : dict (@vec T);
  opt_critic : option (Adam T (CriticParams T));
  opt_proposal : option (Adam T (dict (@vec T)));
  loss_d : list T;
  np_random : RandomState;
  history : list event
}.

Definition set_params_critic (p : CriticParams T) (w : World) : World :=
  mkWorld p (params_proposal w) (opt_critic w) (opt_proposal w)
          (loss_d w) (np_random w) (history w).

Definition set_params_proposal (p : dict (@vec T)) (w : World) : World :=
  mkWorld (params_critic w) p (opt_critic w) (opt_proposal w)
          (loss_d w) (np_random w) (history w).

Definition set_opt_critic (o : option (Adam T (CriticParams T))) (w : World) : World :=
  mkWorld (params_critic w) (params_proposal w) o (opt_proposal w)
          (loss_d w) (np_random w) (history w).

Definition set_opt_proposal (o : option (Adam T (dict (@vec T)))) (w : World) : World :=
  mkWorld (params_critic w) (params_proposal w) (opt_critic w) o
          (loss_d w) (np_random w) (history w).

Definition set_loss_d (l : list T) (w : World) : World :=
  mkWorld (params_critic w) (params_proposal w) (opt_critic w) (opt_proposal w)
          l (np_random w) (history w).

Definition set_np_random (r : RandomState) (w : World) : World :=
  mkWorld (params_critic w) (params_proposal w) (opt_critic w) (opt_proposal w)
          (loss_d w) r (history w).

Definition set_history (h : list event) (w : World) : World :=
  mkWorld (params_critic w) (params_proposal w) (opt_critic w) (opt_proposal w)
          (loss_d w) (np_random w) h.

(** *** The monad of the script: state, and exceptions that keep the state
    reached when they were raised. *)

Inductive outcome (A : Type) : Type :=
| Done (a : A) (w : World)
| Abort (e : exn) (w : World).

Arguments Done {A} a w.
Arguments Abort {A} e w.

Definition M (A : Type) : Type := World -> outcome A.

Definition ret {A} (a : A) : M A := fun w => Done a w.

Definition bind {A B} (m : M A) (k : A -> M B) : M B :=
  fun w => match m w with
           | Done a w' => k a w'
           | Abort e w' => Abort e w'
           end.

Definition lift {A} (r : res A) : M A :=
  fun w => match r with
           | Ok a => Done a w
           | Raise e => Abort e w
           end.

Definition read {A} (f : World -> A) : M A := fun w => Done (f w) w.

Definition modify (f : World -> World) : M unit := fun w => Done tt (f w).

Definition emit (e : event) : M unit :=
  modify (fun w => set_history (history w ++ [e]) w).

(** A draw with [random_state=None]: it uses and advances the global
    state. *)
Definition with_global {A} (f : RandomState -> res (A * RandomState)) : M A :=
  fun w => match f (np_random w) with
           | Ok (a, r) => Done a (set_np_random r w)
           | Raise e => Abort e w
           end.

Fixpoint foldW {A S} (f : S -> A -> M S) (l : list A) (s : S) : M S :=
  match l with
  | [] => ret s
  | a :: l' => bind (f s a) (foldW f l')
  end.

Fixpoint forW {A} (l : list A) (f : A -> M unit) : M unit :=
  match l with
  | [] => ret tt
  | a :: l' => bind (f a) (fun _ => forW l' f)
  end.

Fixpoint repeatW (n : nat) (m : M unit) : M unit :=
  match n with
  | O => ret tt
  | S n' => bind m (fun _ => repeatW n' m)
  end.

End Script.

Arguments Done {T RG A} a w.
Arguments Abort {T RG A} e w.

Notation "x <~ m ;; k" := (bind m (fun x => k))
  (at level 61, m at next level, right associativity).
Notation "m ;;; k" := (bind m (fun _ => k))
  (at level 61, right associativity).

(** ** The critic loss, the gradient estimator and the training loop *)

Section Program.

Context {T : Type} `{ST : Scalar T} `{RG : RandomGen T} `{AG : Autograd T}.

Variable G : Globals (T := T).

(** [enumerate(l)] *)
Definition enumerate {A} (l : list A) : list (nat * A) :=
  combine (seq 0 (length l)) l.

(** Lines 73 to 75: [batch_size] labels, 1 from position
    [batch_size // 2] on. *)
Definition labels (batch_size : nat) : @vec T :=
  repeat s0 (batch_size / 2) ++ repeat s1 (batch_size - batch_size / 2).

(** Line 83: [_X_gen[j, :] = simulator(theta, 1, random_state=rng).ravel()] *)
Definition generate_step (st : @matrix T * RandomState) (jt : nat * @vec T)
  : res (@matrix T * RandomState) :=
  '(x, rng) <- simulator (snd jt) 1 (snd st) ;;
  X_gen <- set_row (fst st) (fst jt) (concat x) ;;
  Ok (X_gen, rng).

(** Lines 81 to 83: one simulated observation for each [theta], written
    into row [j] of a zero matrix with [batch_size // 2] rows. *)
Definition generate (thetas : @matrix T) (rng : RandomState) (batch_size : nat)
  : res (@matrix T * RandomState) :=
  let X_gen := repeat (zeros n_features) (batch_size / 2) in
  foldM generate_step (enumerate thetas) (X_gen, rng).

(** Lines 85 and 86: the rows of [X_obs] at the first [batch_size // 2]
    entries of a permutation of its indices. *)
Definition observe (rng : RandomState) (batch_size : nat)
  : res (@matrix T * RandomState) :=
  let (indices, rng) := rs_permutation (length (@X_obs T _ _)) rng in
  X_o <- take_rows X_obs (firstn (batch_size / 2) indices) ;;
  Ok (X_o, rng).

(** Line 90: [np.mean(-y_critic * y_pred + (1. - y_critic) * y_pred)] *)
Definition wgan (y_critic y_pred : @vec T) : res T :=
  a <- broadcast2 smul (map sopp y_critic) y_pred ;;
  b <- broadcast2 smul (map (ssub s1) y_critic) y_pred ;;
  c <- broadcast2 sadd a b ;;
  Ok (mean c).

(** Lines 93 and 94: one coefficient for each row,
    [eps * _X_obs + (1. - eps) * _X_gen]. *)
Definition interpolate (X_gen X_o : @matrix T) (rng : RandomState)
    (batch_size : nat) : res (@matrix T) :=
  let (eps, rng) := draws (draws rs_rand 1) (batch_size / 2) rng in
  e1 <- broadcast2d smul eps X_o ;;
  e2 <- broadcast2d smul (map (map (ssub s1)) eps) X_gen ;;
  broadcast2d sadd e1 e2.

(** Line 96: [np.sum(grad_Dx ** 2, axis=1) ** 0.5] *)
Definition row_norms (grad_Dx : @matrix T) : @vec T :=
  map (fun g => ssqrt (vsum (map sq g))) grad_Dx.

(** Lines 95 to 97. *)
Definition gradient_penalty (X_hat : @matrix T) (params_critic : CriticParams T)
  : res T :=
  grad_Dx <- ag_elementwise_grad (fun X => predict X params_critic) X_hat ;;
  let norms := row_norms grad_Dx in
  Ok (mean (map (fun n => sq (ssub n s1)) norms)).

(** Lines 77 to 86: the generated and the real half of the batch.  [rng]
    is the stream seeded with [i]; it serves, in this order, the simulator
    calls, the permutation and later the interpolation coefficients. *)
Definition make_batch (thetas : @matrix T) (i : nat) (batch_size : nat)
  : res (@matrix T * @matrix T * RandomState) :=
  let rng := rs_seed i in
  '(X_gen, rng) <- generate thetas rng batch_size ;;
  '(X_o, rng) <- observe rng batch_size ;;
  Ok (X_gen, X_o, rng).

(** Lines 73 to 99 of [loss_critic], given the [thetas] drawn at line 80. *)
Definition loss_critic_body (thetas : @matrix T) (params_critic : CriticParams T)
    (i : nat) (lambda_gp : T) (batch_size : nat) : res T :=
  let y_critic := labels batch_size in
  '(X_gen, X_o, rng) <- make_batch thetas i batch_size ;;
  let X := X_gen ++ X_o in
  y_pred <- predict X params_critic ;;
  l_wgan <- wgan y_critic y_pred ;;
  X_hat <- interpolate X_gen X_o rng batch_size ;;
  l_gp <- gradient_penalty X_hat params_critic ;;
  Ok (sadd l_wgan (smul lambda_gp l_gp)).

(** [loss_critic(params_critic, i, lambda_gp, batch_size)].  The proposal
    parameters are the global ones, and [gaussian_draw] is called without
    a [random_state]. *)
Definition loss_critic (params_critic : CriticParams T) (i : nat)
    (lambda_gp : T) (batch_size : nat) : M T :=
  emit (EvLossCritic batch_size i) ;;;
  params_proposal <~ read params_proposal ;;
  thetas <~ with_global (gaussian_draw params_proposal (batch_size / 2)) ;;
  lift (loss_critic_body thetas params_critic i lambda_gp batch_size).

(** [grad_loss_critic = ag.grad(loss_critic)], called by the optimizer with
    the default [lambda_gp] and [batch_size]: the forward pass runs once,
    effects included, and is differentiated in the critic parameters. *)
Definition grad_loss_critic (params_critic : CriticParams T) (i : nat)
  : M (CriticParams T) :=
  emit (EvLossCritic (batch_size G) i) ;;;
  params_proposal <~ read params_proposal ;;
  thetas <~ with_global (gaussian_draw params_proposal (batch_size G / 2)) ;;
  lift (ag_grad (fun p => loss_critic_body thetas p i (lambda_gp G) (batch_size G))
                params_critic).

(** [grad_u[k] += -dx * v] for every item of [grad_q]. *)
Definition accumulate (dx : @vec T) (grad_q grad_u : dict (@vec T))
  : res (dict (@vec T)) :=
  foldM (fun grad_u kv =>
           cur <- dict_get grad_u (fst kv) ;;
           t <- broadcast2 smul (map sopp dx) (snd kv) ;;
           new <- iadd cur t ;;
           Ok (dict_set grad_u (fst kv) new))
        grad_q grad_u.

(** [grad_ent[k] += v] for every item of [grad_entropy]. *)
Definition add_entropy (grad_entropy grad_ent : dict (@vec T))
  : res (dict (@vec T)) :=
  foldM (fun grad_ent kv =>
           cur <- dict_get grad_ent (fst kv) ;;
           new <- iadd cur (snd kv) ;;
           Ok (dict_set grad_ent (fst kv) new))
        grad_entropy grad_ent.

(** [grad_u[k] = 1. / M * grad_u[k] + gamma * grad_ent[k]] *)
Definition finish_step (m : nat) (gamma : T) (grad_ent grad_u : dict (@vec T))
    (k : string) : res (dict (@vec T)) :=
  inv <- (if m =? 0 then Raise ZeroDivisionError
          else Ok (sdiv s1 (of_nat m))) ;;
  cur <- dict_get grad_u k ;;
  ent <- dict_get grad_ent k ;;
  new <- broadcast2 sadd (map (smul inv) cur) (map (smul gamma) ent) ;;
  Ok (dict_set grad_u k new).

(** Lines 126 and 127: the loop over the keys of [grad_u]. *)
Definition finish (m : nat) (gamma : T) (grad_ent grad_u : dict (@vec T))
  : res (dict (@vec T)) :=
  foldM (finish_step m gamma grad_ent) (keys grad_u) grad_u.

(** Lines 113 to 118, the body of the loop over [thetas]: one observation
    from the simulator, called without a [random_state], scored by the
    global critic. *)
Definition sampling_body (params_proposal : dict (@vec T))
    (grad_u : dict (@vec T)) (theta : @vec T) : M (dict (@vec T)) :=
  x <~ with_global (simulator theta 1) ;;
  params_critic <~ read params_critic ;;
  dx <~ lift (predict x params_critic) ;;
  grad_q <~ lift (grad_gaussian_logpdf params_proposal theta) ;;
  lift (accumulate dx grad_q grad_u).

(** [approx_grad_u(params_proposal, i, gamma)].  [batch_size] is the global
    one. *)
Definition approx_grad_u_gamma (params_proposal : dict (@vec T)) (i : nat)
    (gamma : T) : M (dict (@vec T)) :=
  emit (EvApproxGradU i) ;;;
  let rng := rs_seed i in
  let grad_u := map (fun kv => (fst kv, zeros (length (snd kv)))) params_proposal in
  let grad_ent := map (fun kv => (fst kv, zeros (length (snd kv)))) params_proposal in
  tr <~ lift (gaussian_draw params_proposal (batch_size G) rng) ;;
  let thetas := fst tr in
  grad_u <~ foldW (sampling_body params_proposal) thetas grad_u ;;
  grad_entropy <~ lift (grad_gaussian_entropy params_proposal) ;;
  grad_ent <~ lift (add_entropy grad_entropy grad_ent) ;;
  let m := length thetas in
  lift (finish m gamma grad_ent grad_u).

(** The call with the default [gamma], as the optimizer makes it. *)
Definition approx_grad_u (params_proposal : dict (@vec T)) (i : nat)
  : M (dict (@vec T)) :=
  approx_grad_u_gamma params_proposal i (gamma G).

(** *** The optimizer's methods on the state of the script *)

Section Optimizer.

Context {P : Type} `{PS : ParamStruct T P}.

Variable o : which.
Variable get_opt : World -> option (Adam T P).
Variable set_opt : option (Adam T P) -> World -> World.
Variable set_params : P -> World -> World.
Variable grad : P -> nat -> M P.

(** The optimizer object; using it before line 134 has bound it is a
    [NameError]. *)
Definition the_opt : M (Adam T P) :=
  fun w => match get_opt w with
           | Some a => Done a w
           | None => Abort (NameError "optimizer") w
           end.

(** Modelled from the spec: one iteration of [AdamOptimizer.step].
    Section 4.4: the gradient function is evaluated at the trial
    parameters and the step counter, then the state is updated. *)
Definition opt_iter : M unit :=
  a <~ the_opt ;;
  emit (EvIter o (ad_i a)) ;;;
  g <~ grad (ad_x a) (ad_i a) ;;
  a' <~ lift (adam_update a g) ;;
  modify (set_opt (Some a')).

(** Modelled from the spec: [AdamOptimizer.step(k)], exactly [k]
    consecutive iterations. *)
Definition opt_step (k : nat) : M unit := repeatW k opt_iter.

(** Modelled from the spec: [AdamOptimizer.move_to(params)] overwrites the
    caller's structure with the trial parameters. *)
Definition opt_move_to : M unit :=
  a <~ the_opt ;;
  modify (set_params (ad_x a)) ;;;
  emit (EvMoveTo o).

(** Modelled from the spec: [AdamOptimizer.reset()]. *)
Definition opt_reset : M unit :=
  a <~ the_opt ;;
  modify (set_opt (Some (adam_reset a))) ;;;
  emit (EvReset o).

End Optimizer.

(** [opt_critic] and [opt_proposal], lines 134 to 137, with the gradient
    functions they are given. *)
Definition critic_step : nat -> M unit :=
  opt_step Critic opt_critic set_opt_critic grad_loss_critic.
Definition critic_move_to : M unit :=
  opt_move_to Critic opt_critic set_params_critic.
Definition critic_reset : M unit :=
  opt_reset Critic opt_critic set_opt_critic.
Definition proposal_step : nat -> M unit :=
  opt_step Proposal opt_proposal set_opt_proposal approx_grad_u.
Definition proposal_move_to : M unit :=
  opt_move_to Proposal opt_proposal set_params_proposal.

(** Lines 134 to 137: the two optimizers are constructed. *)
Definition make_optimizers : M unit :=
  pc <~ read params_critic ;;
  modify (set_opt_critic
            (Some (adam_init pc (lit (1 # 100)) (lit (1 # 2)) (lit (1 # 2))))) ;;;
  emit (EvCreate Critic) ;;;
  pp <~ read params_proposal ;;
  modify (set_opt_proposal
            (Some (adam_init pp (lit (1 # 100)) (lit (1 # 10)) (lit (1 # 10))))) ;;;
  emit (EvCreate Proposal).

(** Line 156: [loss_d.append(-loss_critic(params_critic, i, batch_size=5000))] *)
Definition record_diagnostic (i : nat) : M unit :=
  pc <~ read params_critic ;;
  l <~ loss_critic pc i (lambda_gp G) 5000 ;;
  modify (fun w => set_loss_d (loss_d w ++ [sopp l]) w) ;;;
  emit (EvRecord i).

(** Lines 159 to 196, as far as the state is concerned: 20000 parameter
    vectors and one observation for each are drawn from the global random
    state.  The figure itself is outside the model. *)
Definition plot (i : nat) : M unit :=
  if make_plots G then
    emit (EvPlot i) ;;;
    pp <~ read params_proposal ;;
    thetas <~ with_global (gaussian_draw pp (Z.to_nat 20000)) ;;
    forW thetas (fun theta => _ <~ with_global (simulator theta 1) ;; ret tt)
  else ret tt.

(** Lines 147 to 154, "fit simulator" and "fit critic". *)
Definition fit : M unit :=
  proposal_step 1 ;;;
  proposal_move_to ;;;
  critic_reset ;;;
  critic_step 100 ;;;
  critic_move_to.

(** One pass of the [for] loop, lines 145 to 196. *)
Definition epoch (i : nat) : M unit :=
  fit ;;;
  record_diagnostic i ;;;
  plot i.

(** Lines 139 to 196. *)
Definition training_loop : M unit :=
  critic_step 100 ;;;
  critic_move_to ;;;
  modify (set_loss_d []) ;;;
  forW (seq 0 (n_epochs G)) epoch.

(** Lines 134 to 196. *)
Definition main : M unit :=
  make_optimizers ;;;
  training_loop.

End Program.

(** ** Well-formed inputs and closed forms *)

Section Closed.

Context {T : Type} `{ST : Scalar T} `{RG : RandomGen T}.

(** The critic's layers are chain-consistent for inputs with [nf]
    features: [W_0] has rows of length [nf], every bias has the width of
    its layer, the output layer has one bias. *)
Definition critic_ok (nf : nat) (p : CriticParams T) : bool :=
  forallb (fun n => n =? nf) (map (@length T) (W_0 p))
  && (length (b_0 p) =? length (W_0 p))
  && forallb (fun n => n =? length (W_0 p)) (map (@length T) (W_1 p))
  && (length (b_1 p) =? length (W_1 p))
  && (length (W_2 p) =? length (W_1 p))
  && (length (b_2 p) =? 1).

(** A dictionary the proposal can be drawn from and simulated with: both
    groups are present, of one length, and hold at least the two entries
    the simulator reads. *)
Definition drawable (d : dict (@vec T)) : bool :=
  match dict_get d "location", dict_get d "log_scale" with
  | Ok mu, Ok log_sigma =>
      (length mu =? length log_sigma) && (2 <=? length mu)
  | _, _ => false
  end.

(** One hidden layer applied to one row. *)
Definition layer (W : @matrix T) (b : @vec T) (row : @vec T) : @vec T :=
  map (relu (lit (1 # 10)))
      (zip_with sadd (map (fun w => vsum (zip_with smul w row)) W) b).

(** The critic's score of one row. *)
Definition score (p : CriticParams T) (row : @vec T) : T :=
  sadd (vsum (zip_with smul (W_2 p)
                (layer (W_1 p) (b_1 p) (layer (W_0 p) (b_0 p) row))))
       (hd s0 (b_2 p)).

(** One observation for each parameter vector, drawn in order from one
    stream. *)
Fixpoint simulate_each (thetas : @matrix T) (r : RandomState)
  : list T * RandomState :=
  match thetas with
  | [] => ([], r)
  | theta :: thetas' =>
      let (x, r1) := rs_norm (nth 0 theta s0) (sexp (nth 1 theta s0)) r in
      let (xs, r2) := simulate_each thetas' r1 in
      (x :: xs, r2)
  end.

(** The rows [gaussian_draw] returns, from the standard normal draws. *)
Definition scale_shift (mu ls : @vec T) (z : @vec T) : @vec T :=
  zip_with sadd (zip_with smul z (map sexp ls)) mu.

(** Section 4.1, [grad_log_density]: the gradient with respect to the
    location and with respect to the log scale. *)
Definition grad_log_density (mu log_sigma theta : @vec T) : @vec T * @vec T :=
  let variance := map (fun l => sq (sexp l)) log_sigma in
  let d := zip_with ssub theta mu in
  (zip_with sdiv d variance,
   map (fun x => ssub x s1) (zip_with sdiv (map sq d) variance)).

(** Section 4.3, step 3: the running total of a parameter group. *)
Definition running_total (n : nat) (terms : list (@vec T)) : @vec T :=
  fold_left (zip_with sadd) terms (zeros n).

(** Section 4.3, steps 3 to 5, for the samples [(theta, x)]: every sample
    contributes [-score(x) * grad_log_density(theta)], the total is averaged
    over the number of samples, and [gamma * grad_entropy()] is added. *)
Definition estimator (critic : CriticParams T) (mu log_sigma : @vec T)
    (gamma : T) (samples : list (@vec T * T)) : dict (@vec T) :=
  let m := length samples in
  let weight := fun s : @vec T * T => sopp (score critic [snd s]) in
  let total_loc :=
    running_total (length mu)
      (map (fun s => map (smul (weight s))
                         (fst (grad_log_density mu log_sigma (fst s)))) samples) in
  let total_ls :=
    running_total (length log_sigma)
      (map (fun s => map (smul (weight s))
                         (snd (grad_log_density mu log_sigma (fst s)))) samples) in
  [("location",
    zip_with sadd (map (smul (sdiv s1 (of_nat m))) total_loc)
                  (map (smul gamma) (map (fun _ => s0) mu)));
   ("log_scale",
    zip_with sadd (map (smul (sdiv s1 (of_nat m))) total_ls)
                  (map (smul gamma) (map (fun _ => s1) log_sigma)))].

(** The two running totals of [approx_grad_u] after the samples
    [(theta, x)], started at [u]. *)
Definition total_loc (pc : CriticParams T) (mu ls : @vec T)
    (samples : list (@vec T * T)) (u : @vec T) : @vec T :=
  fold_left (zip_with sadd)
    (map (fun s => map (smul (sopp (score pc [snd s])))
                       (fst (grad_log_density mu ls (fst s)))) samples) u.

Definition total_ls (pc : CriticParams T) (mu ls : @vec T)
    (samples : list (@vec T * T)) (u : @vec T) : @vec T :=
  fold_left (zip_with sadd)
    (map (fun s => map (smul (sopp (score pc [snd s])))
                       (snd (grad_log_density mu ls (fst s)))) samples) u.

(** Section 4.2: [mean(-label*score + (1-label)*score)] over scores paired
    with their labels. *)
Definition wasserstein (labelled : list (T * T)) : T :=
  mean (map (fun ls => sadd (smul (sopp (fst ls)) (snd ls))
                            (smul (ssub s1 (fst ls)) (snd ls))) labelled).

(** Section 4.2: [x_hat = eps * x_real + (1 - eps) * x_gen]. *)
Definition x_hat (eps : T) (x_real x_gen : @vec T) : @vec T :=
  zip_with sadd (map (smul eps) x_real) (map (smul (ssub s1 eps)) x_gen).

(** One interpolated row for each pair, with its own coefficient. *)
Definition interpolation (eps : list T) (X_real X_gen : @matrix T) : @matrix T :=
  map (fun t => x_hat (fst t) (fst (snd t)) (snd (snd t)))
      (combine eps (combine X_real X_gen)).

(** Section 4.2: [mean((norm - 1)^2)] over the rows of the gradient. *)
Definition penalty (grads : @matrix T) : T :=
  mean (map (fun g => sq (ssub (ssqrt (vsum (map sq g))) s1)) grads).

(** The indices of the observed rows of a batch: the first
    [batch_size // 2] entries of a permutation of the indices of [X_obs]
    drawn from [rng]. *)
Definition observed_indices (rng : RandomState) (batch_size : nat) : list nat :=
  firstn (batch_size / 2) (fst (rs_permutation n_obs rng)).

(** The generated rows of the batch that [loss_critic] builds from
    [thetas] with the stream seeded by [i]. *)
Definition gen_rows (thetas : @matrix T) (i : nat) : @matrix T :=
  map (fun x => [x]) (fst (simulate_each thetas (rs_seed i))).

(** Its observed rows: the stream has served the simulator calls before
    the permutation is drawn. *)
Definition real_indices (thetas : @matrix T) (i batch_size : nat) : list nat :=
  observed_indices (snd (simulate_each thetas (rs_seed i))) batch_size.

Definition real_rows (thetas : @matrix T) (i batch_size : nat) : @matrix T :=
  map (fun j => nth j X_obs []) (real_indices thetas i batch_size).

(** Its interpolation coefficients, one uniform draw for each pair, drawn
    after the permutation. *)
Definition coefficients (thetas : @matrix T) (i batch_size : nat) : list T :=
  fst (draws rs_rand (batch_size / 2)
         (snd (rs_permutation n_obs (snd (simulate_each thetas (rs_seed i)))))).

End Closed.

(** ** The expected order of events *)

Section Traces.

Context {T : Type} `{ST : Scalar T} `{RG : RandomGen T}.

(** The script's constants allow every batch to be built: the batch size
    is even, not zero, and its real half fits in [X_obs]. *)
Definition globals_ok (G : Globals (T := T)) : Prop :=
  Nat.even (batch_size G) = true /\
  batch_size G <> 0 /\
  batch_size G / 2 <= n_obs.

(** [n] critic iterations from counter [from]: each evaluates the critic
    loss once, seeded with the counter. *)
Definition critic_iters (bs from n : nat) : list event :=
  flat_map (fun j => [EvIter Critic j; EvLossCritic bs j]) (seq from n).

Definition warmup_trace (bs : nat) : list event :=
  critic_iters bs 0 100 ++ [EvMoveTo Critic].

Definition epoch_trace (G : Globals (T := T)) (e : nat) : list event :=
  [EvIter Proposal e; EvApproxGradU e; EvMoveTo Proposal; EvReset Critic]
  ++ critic_iters (batch_size G) 0 100
  ++ [EvMoveTo Critic; EvLossCritic 5000 e; EvRecord e]
  ++ (if make_plots G then [EvPlot e] else []).

Definition training_trace (G : Globals (T := T)) : list event :=
  warmup_trace (batch_size G) ++ flat_map (epoch_trace G) (seq 0 (n_epochs G)).

(** The moments of an optimizer have the shape of its trial parameters. *)
Definition adam_ok {P} `{ParamStruct T P} (a : Adam T P) : Prop :=
  pshape (ad_m a) = pshape (ad_x a) /\ pshape (ad_v a) = pshape (ad_x a).

(** The state between two calls of the training loop: the parameters are
    well formed, both optimizers exist, their trial parameters have the
    shape of the committed ones, and their counters are [ci] and [pi]. *)
Definition world_ok (ci pi : nat) (w : World) : Prop :=
  critic_ok 1 (params_critic w) = true /\
  drawable (params_proposal w) = true /\
  exists oc op,
    opt_critic w = Some oc /\ opt_proposal w = Some op /\
    critic_shape (ad_x oc) = critic_shape (params_critic w) /\
    dict_shape (ad_x op) = dict_shape (params_proposal w) /\
    adam_ok oc /\ adam_ok op /\ ad_i oc = ci /\ ad_i op = pi.

(** The batch sizes for which the labels and the rows of the batch differ
    in number, neither number being 1. *)
Definition unbalanced (bs : nat) : Prop :=
  bs <> bs / 2 + Nat.min (bs / 2) n_obs /\ bs <> 1 /\
  bs / 2 + Nat.min (bs / 2) n_obs <> 1.

(** [m] started in [w] returns, having appended the events [tr] to the
    history, in a state and with a value that satisfy [Q]. *)
Definition runs {A} (m : M A) (w : World) (tr : list event)
    (Q : A -> World -> Prop) : Prop :=
  exists a w', m w = Done a w' /\ history w' = history w ++ tr /\ Q a w'.

(** The state an outcome ends in, returned or raised. *)
Definition world_of {A} (o : outcome A) : World :=
  match o with
  | Done _ w => w
  | Abort _ w => w
  end.

(** [m] leaves the component [f] of the state as it found it, whether it
    returns or raises. *)
Definition preserves {A X} (f : World -> X) (m : M A) : Prop :=
  forall w, f (world_of (m w)) = f w.

(** The outcome with its final state changed by [f]. *)
Definition map_world {A} (f : World -> World) (o : outcome A) : outcome A :=
  match o with
  | Done a w => Done a (f w)
  | Abort e w => Abort e (f w)
  end.

(** The call returned. *)
Definition returned {A} (o : outcome A) : bool :=
  match o with
  | Done _ _ => true
  | Abort _ _ => false
  end.

(** The value an outcome returns, if it returns. *)
Definition value_of {A} (o : outcome A) : option A :=
  match o with
  | Done a _ => Some a
  | Abort _ _ => None
  end.

(** [m] does not read the loss trace: with another trace in the state it
    does the same, and leaves that other trace as it would have left the
    first. *)
Definition trace_blind {A} (m : M A) : Prop :=
  forall (tr : list T) (w : World),
    m (set_loss_d tr w) = map_world (set_loss_d tr) (m w) /\
    loss_d (world_of (m w)) = loss_d w.

End Traces.

(** ** What a command reads, and the state at the plot *)

(** The identities of real arithmetic on the labels 0 and 1. *)
Class LabelLaws (T : Type) `{Scalar T} : Prop := {
  sopp_0 : sopp s0 = s0;
  smul_0_l : forall x : T, smul s0 x = s0;
  smul_1_l : forall x : T, smul s1 x = x;
  ssub_0_r : forall x : T, ssub x s0 = x;
  smul_opp_1 : forall x : T, smul (sopp s1) x = sopp x
}.

Section Reads.

Context {T : Type} `{ST : Scalar T} `{RG : RandomGen T} `{AG : Autograd T}.

(** Two outcomes agree on [f]: both return the same value or both raise
    the same exception, in states with the same component [f]. *)
Definition agree {A X} (f : World -> X) (o1 o2 : outcome A) : Prop :=
  match o1, o2 with
  | Done a1 w1, Done a2 w2 => a1 = a2 /\ f w1 = f w2
  | Abort e1 w1, Abort e2 w2 => e1 = e2 /\ f w1 = f w2
  | _, _ => False
  end.

(** [m] reads the state through the component [f] only: started in two
    states with the same [f], it has the same outcome. *)
Definition reads_only {A X} (f : World -> X) (m : M A) : Prop :=
  forall w1 w2, f w1 = f w2 -> agree f (m w1) (m w2).

(** Everything of the state but the global random state and the
    history. *)
Definition stored (w : World) :=
  (params_critic w, params_proposal w, opt_critic w, opt_proposal w, loss_d w).

Variable G : Globals (T := T).

(** Lines 139 to 156 as they have run when pass [i] of the loop reaches
    "# plot": the warmup, the passes before [i], and the fitting and the
    recording of pass [i]. *)
Definition until_plot (i : nat) : M unit :=
  critic_step G 100 ;;;
  critic_move_to ;;;
  modify (set_loss_d []) ;;;
  forW (seq 0 i) (epoch G) ;;;
  fit G ;;;
  record_diagnostic G i.

(** The rest of the loop from the plot of pass [i] on. *)
Definition from_plot (i : nat) : M unit :=
  plot G i ;;;
  forW (seq (S i) (n_epochs G - S i)) (epoch G).

End Reads.

(** ** A concrete instance: exact rationals, a small generator *)

Module Example.

(** A square root that is exact on squares of rationals. *)
Definition Qc_sqrt (q : Qc) : Qc :=
  Q2Qc (Z.sqrt (Qnum q) # Pos.sqrt (Qden q)).

(** Rational scalars.  [sexp] and [slog] are rational stand-ins for the
    transcendental functions: the second-order expansion of the
    exponential at 0, which is positive everywhere, and the first-order
    expansion of the logarithm at 1. *)
#[export] Instance Qc_scalar : Scalar Qc := {
  s0 := Q2Qc 0;
  s1 := Q2Qc 1;
  sadd := Qcplus;
  ssub := Qcminus;
  smul := Qcmult;
  sdiv := Qcdiv;
  sopp := Qcopp;
  ssqrt := Qc_sqrt;
  sexp x := Qcplus (Q2Qc 1) (Qcplus x (Qcdiv (Qcmult x x) (Q2Qc 2)));
  slog x := Qcminus x (Q2Qc 1);
  sleb x y := Qle_bool x y;
  of_nat n := Q2Qc (Z.of_nat n # 1);
  lit q := Q2Qc q
}.

(** A linear congruential generator on integers. *)
Definition lcg (s : Z) : Z := ((s * 75 + 74) mod 65537)%Z.

Definition noise (s : Z) : Qc := Q2Qc ((s mod 9 - 4) # 4).

Definition rotate (n : nat) (s : Z) : list nat :=
  let k := Z.to_nat (s mod Z.of_nat n) in
  skipn k (seq 0 n) ++ firstn k (seq 0 n).

#[export] Instance toy_random : RandomGen Qc := {
  RandomState := Z;
  rs_seed n := lcg (Z.of_nat n);
  rs_randn s := (noise s, lcg s);
  rs_rand s := (Q2Qc ((s mod 101) # 100), lcg s);
  rs_permutation n s := (rotate n s, lcg s);
  rs_norm loc scale s := (Qcplus loc (Qcmult scale (noise s)), lcg s)
}.

(** A stand-in for [autograd]: the forward pass runs, and the gradient is
    one in every entry. *)
#[export] Instance unit_autograd : Autograd Qc := {
  ag_elementwise_grad f X := _ <- f X ;; Ok (map (map (fun _ => Q2Qc 1)) X);
  ag_grad f p := _ <- f p ;; Ok (pmap (fun _ : Qc => Q2Qc 1) p)
}.

Definition critic0 : CriticParams Qc :=
  mkCritic [[Q2Qc 1]; [Q2Qc (1 # 2)]]
           [[Q2Qc 1; Q2Qc 1]; [Q2Qc (1 # 2); Q2Qc 0]]
           [Q2Qc 1; Q2Qc (-1)]
           [Q2Qc 0; Q2Qc 0] [Q2Qc 0; Q2Qc 0] [Q2Qc 0].

Definition proposal0 : dict (@vec Qc) :=
  [("location", [Q2Qc 0; Q2Qc 0]); ("log_scale", [Q2Qc 0; Q2Qc 0])].

(** The state before the optimizers are constructed, with [seed] as the
    state of the global generator. *)
Definition world0 (seed : Z) : World :=
  mkWorld critic0 proposal0 None None [] (seed : RandomState) [].

(** The state after their construction. *)
Definition world1 (seed : Z) : World :=
  mkWorld critic0 proposal0
    (Some (adam_init critic0 (lit (1 # 100)) (lit (1 # 2)) (lit (1 # 2))))
    (Some (adam_init proposal0 (lit (1 # 100)) (lit (1 # 10)) (lit (1 # 10))))
    [] (seed : RandomState) [].

(** The script's constants with an odd batch size. *)
Definition odd_globals : Globals :=
  mkGlobals 3 (300 + 1) (lit (25 # 1000)) (lit 5) true.

End Example.

(** ** Further inputs of the concrete instance *)

Module Cases.

Import Example.

(** The script's constants with a batch size of 0. *)
Definition zero_globals : Globals :=
  mkGlobals 0 (300 + 1) (lit (25 # 1000)) (lit 5) true.

(** The script's constants with three passes and no plot. *)
Definition short_globals : Globals :=
  mkGlobals 64 3 (lit (25 # 1000)) (lit 5) false.

(** A critic whose first layer takes two features. *)
Definition critic2 : CriticParams Qc :=
  mkCritic [[Q2Qc 1; Q2Qc 1]; [Q2Qc (1 # 2); Q2Qc 0]]
           [[Q2Qc 1; Q2Qc 1]; [Q2Qc (1 # 2); Q2Qc 0]]
           [Q2Qc 1; Q2Qc (-1)]
           [Q2Qc 0; Q2Qc 0] [Q2Qc 0; Q2Qc 0] [Q2Qc 0].

(** A state whose critic is that one. *)
Definition world2 (seed : Z) : World :=
  mkWorld critic2 proposal0 None None [] (seed : RandomState) [].

End Cases.

(** * Facts about the error monad and the array operations *)

Section ArrayFacts.

Context {T : Type} `{ST : Scalar T}.

Lemma mapM_ok {A B} (f : A -> res B) (g : A -> B) (l : list A) :
  (forall a, In a l -> f a = Ok (g a)) -> mapM f l = Ok (map g l).
Proof.
  induction l as [|a l IH]; intros Hf; simpl.
  - reflexivity.
  - rewrite (Hf a (or_introl eq_refl)). simpl.
    rewrite IH by (intros; apply Hf; now right). reflexivity.
Qed.

Lemma mapM_length {A B} (f : A -> res B) (l : list A) (bs : list B) :
  mapM f l = Ok bs -> length bs = length l.
Proof.
  revert bs. induction l as [|a l IH]; simpl; intros bs Hm.
  - now inversion Hm.
  - destruct (f a); simpl in Hm; [|discriminate].
    destruct (mapM f l); simpl in Hm; [|discriminate].
    inversion Hm; subst. simpl. f_equal. now apply IH.
Qed.

Lemma zip_with_length {A B C} (f : A -> B -> C) u v :
  length u = length v -> length (zip_with f u v) = length u.
Proof.
  revert v. induction u as [|a u IH]; destruct v; simpl; intros; try lia.
  f_equal. apply IH. lia.
Qed.

Lemma zip_with_combine {A B C} (f : A -> B -> C) u v :
  map (fun p => f (fst p) (snd p)) (combine u v) = zip_with f u v.
Proof.
  revert v. induction u as [|a u IH]; destruct v; simpl; try reflexivity.
  now rewrite IH.
Qed.

Lemma zip_with_single_l {A B C} (f : A -> B -> C) a v :
  length v = 1 -> zip_with f [a] v = map (f a) v.
Proof. destruct v as [|b [|]]; simpl; intros; try lia. reflexivity. Qed.

Lemma zip_with_single_r {A B C} (f : A -> B -> C) u b :
  length u = 1 -> zip_with f u [b] = map (fun x => f x b) u.
Proof. destruct u as [|a [|]]; simpl; intros; try lia. reflexivity. Qed.

Lemma bcast_same {A B C} (f : A -> B -> res C) (g : A -> B -> C) u v :
  length u = length v ->
  (forall a b, In (a, b) (combine u v) -> f a b = Ok (g a b)) ->
  bcast f u v = Ok (zip_with g u v).
Proof.
  intros Hl Hf. unfold bcast. rewrite Hl, Nat.eqb_refl.
  rewrite <- zip_with_combine. apply mapM_ok.
  intros [a b] Hin. now apply Hf.
Qed.

Lemma bcast_mismatch {A B C} (f : A -> B -> res C) u v :
  length u <> length v -> length u <> 1 -> length v <> 1 ->
  bcast f u v = Raise shape_error.
Proof.
  intros Hl Hu Hv. unfold bcast.
  destruct (Nat.eqb_spec (length u) (length v)); [contradiction|].
  destruct u as [|a [|a' u]]; simpl in *; try lia.
  - destruct v as [|b [|b' v]]; simpl in *; try lia; reflexivity.
  - destruct v as [|b [|b' v]]; simpl in *; try lia; reflexivity.
Qed.

Lemma broadcast2_same (f : T -> T -> T) (u v : @vec T) :
  length u = length v -> broadcast2 f u v = Ok (zip_with f u v).
Proof. intros Hl. unfold broadcast2. now apply bcast_same. Qed.

Lemma broadcast2_single_l (f : T -> T -> T) a (v : @vec T) :
  broadcast2 f [a] v = Ok (map (f a) v).
Proof.
  unfold broadcast2, bcast.
  destruct (Nat.eqb_spec (length [a]) (length v)) as [e|n].
  - rewrite (mapM_ok _ (fun p => f (fst p) (snd p))) by reflexivity.
    rewrite zip_with_combine. f_equal. apply zip_with_single_l. simpl in e. lia.
  - apply mapM_ok. reflexivity.
Qed.

Lemma broadcast2_single_r (f : T -> T -> T) (u : @vec T) b :
  broadcast2 f u [b] = Ok (map (fun x => f x b) u).
Proof.
  unfold broadcast2, bcast.
  destruct (Nat.eqb_spec (length u) (length [b])) as [e|n].
  - rewrite (mapM_ok _ (fun p => f (fst p) (snd p))) by reflexivity.
    rewrite zip_with_combine. f_equal. apply zip_with_single_r. simpl in e. lia.
  - destruct u as [|a [|a' u]]; simpl in *; try lia.
    + reflexivity.
    + rewrite (mapM_ok _ (fun x => f x b)) by reflexivity. reflexivity.
Qed.

Lemma broadcast2_mismatch (f : T -> T -> T) (u v : @vec T) :
  length u <> length v -> length u <> 1 -> length v <> 1 ->
  broadcast2 f u v = Raise shape_error.
Proof. intros. unfold broadcast2. now apply bcast_mismatch. Qed.

Lemma iadd_same (u v : @vec T) :
  length u = length v -> iadd u v = Ok (zip_with sadd u v).
Proof. intros Hl. unfold iadd. now rewrite Hl, Nat.eqb_refl. Qed.

Lemma inner_same (u v : @vec T) :
  length u = length v -> inner u v = Ok (vsum (zip_with smul u v)).
Proof. intros Hl. unfold inner. now rewrite Hl, Nat.eqb_refl. Qed.

Lemma repeat_map {A B} (f : A -> B) (l : list A) (b : B) :
  map (fun _ => b) l = repeat b (length l).
Proof. induction l; simpl; congruence. Qed.

(** ** The critic on a well-formed batch *)

Lemma critic_ok_inv nf (p : CriticParams T) :
  critic_ok nf p = true ->
  Forall (fun w => length w = nf) (W_0 p) /\
  length (b_0 p) = length (W_0 p) /\
  Forall (fun w => length w = length (W_0 p)) (W_1 p) /\
  length (b_1 p) = length (W_1 p) /\
  length (W_2 p) = length (W_1 p) /\
  length (b_2 p) = 1.
Proof.
  unfold critic_ok. rewrite !andb_true_iff, !Nat.eqb_eq, !forallb_forall.
  intros [[[[[H0 Hb0] H1] Hb1] H2] Hb2].
  repeat split; auto; apply Forall_forall; intros w Hw.
  - apply Nat.eqb_eq, H0, in_map, Hw.
  - apply Nat.eqb_eq, H1, in_map, Hw.
Qed.

Lemma layer_length (W : @matrix T) b row :
  length b = length W -> length (layer W b row) = length W.
Proof.
  intros Hb. unfold layer. rewrite length_map, zip_with_length; rewrite length_map; auto.
Qed.

Lemma dense_ok (W : @matrix T) b (X : @matrix T) n :
  Forall (fun w => length w = n) W -> length b = length W ->
  Forall (fun r => length r = n) X ->
  (h <- dot_T W X ;; h <- add_bias h b ;;
   Ok (map (map (relu (lit (1 # 10)))) h)) = Ok (map (layer W b) X).
Proof.
  intros HW Hb HX. unfold dot_T.
  rewrite (mapM_ok _ (fun row => map (fun w => vsum (zip_with smul w row)) W)).
  2:{ intros row Hrow. apply mapM_ok. intros w Hw. apply inner_same.
      rewrite Forall_forall in HW, HX. rewrite (HW w Hw), (HX row Hrow). reflexivity. }
  simpl. unfold add_bias.
  rewrite (mapM_ok _ (fun r => zip_with sadd r b)).
  2:{ intros r Hr. apply in_map_iff in Hr. destruct Hr as [row [<- _]].
      apply broadcast2_same. rewrite length_map. auto. }
  simpl. rewrite !map_map. reflexivity.
Qed.

Theorem predict_ok nf (p : CriticParams T) (X : @matrix T) :
  critic_ok nf p = true ->
  Forall (fun r => length r = nf) X ->
  predict X p = Ok (map (score p) X).
Proof.
  intros Hp HX. apply critic_ok_inv in Hp.
  destruct Hp as (H0 & Hb0 & H1 & Hb1 & H2 & Hb2).
  unfold predict.
  pose proof (dense_ok (b_0 p) H0 Hb0 HX) as E0.
  destruct (dot_T (W_0 p) X) as [h0|]; simpl in E0 |- *; [|discriminate].
  destruct (add_bias h0 (b_0 p)) as [h0'|]; simpl in E0 |- *; [|discriminate].
  inversion E0 as [E0']. rewrite E0'. clear E0 E0' h0 h0'.
  assert (HX1 : Forall (fun r => length r = length (W_0 p)) (map (layer (W_0 p) (b_0 p)) X)).
  { apply Forall_forall. intros r Hr. apply in_map_iff in Hr.
    destruct Hr as [row [<- _]]. now apply layer_length. }
  pose proof (dense_ok (b_1 p) H1 Hb1 HX1) as E1.
  destruct (dot_T (W_1 p) _) as [h1|]; simpl in E1 |- *; [|discriminate].
  destruct (add_bias h1 (b_1 p)) as [h1'|]; simpl in E1 |- *; [|discriminate].
  inversion E1 as [E1']. rewrite E1'. clear E1 E1' h1 h1'.
  unfold dot_T1.
  rewrite (mapM_ok _ (fun row => vsum (zip_with smul (W_2 p) row))).
  2:{ intros r Hr. apply in_map_iff in Hr. destruct Hr as [row [<- _]].
      apply inner_same. rewrite layer_length; auto. }
  simpl. unfold score. destruct (b_2 p) as [|c [|]]; simpl in Hb2; try lia.
  rewrite broadcast2_single_r. rewrite !map_map. reflexivity.
Qed.

End ArrayFacts.

(** * The proposal and the simulator on well-formed parameters *)

Section ProposalFacts.

Context {T : Type} `{ST : Scalar T} `{RG : RandomGen T}.

Lemma draws_length {S A} (f : S -> A * S) n s :
  length (fst (draws f n s)) = n.
Proof.
  revert s. induction n as [|n IH]; intros s; simpl; [reflexivity|].
  destruct (f s) as [a s1]. specialize (IH s1).
  destruct (draws f n s1) as [l s2]. simpl in *. now rewrite IH.
Qed.

Lemma draws_Forall {S A} (f : S -> A * S) (P : A -> Prop) n s :
  (forall s, P (fst (f s))) -> Forall P (fst (draws f n s)).
Proof.
  intros Hf. revert s. induction n as [|n IH]; intros s; simpl; [constructor|].
  pose proof (Hf s) as Ha. destruct (f s) as [a s1]. specialize (IH s1).
  destruct (draws f n s1) as [l s2]. simpl in *. now constructor.
Qed.

Lemma drawable_inv (d : dict (@vec T)) :
  drawable d = true ->
  exists mu ls, dict_get d "location" = Ok mu /\ dict_get d "log_scale" = Ok ls /\
                length mu = length ls /\ 2 <= length mu.
Proof.
  unfold drawable. destruct (dict_get d "location") as [mu|]; [|discriminate].
  destruct (dict_get d "log_scale") as [ls|]; [|discriminate].
  rewrite andb_true_iff, Nat.eqb_eq, Nat.leb_le. intros [? ?].
  exists mu, ls. auto.
Qed.

Lemma gaussian_draw_ok (d : dict (@vec T)) mu ls n rng :
  dict_get d "location" = Ok mu -> dict_get d "log_scale" = Ok ls ->
  length mu = length ls ->
  gaussian_draw d n rng =
    Ok (map (scale_shift mu ls) (fst (draws (draws rs_randn (length mu)) n rng)),
        snd (draws (draws rs_randn (length mu)) n rng)).
Proof.
  intros Hmu Hls Hl. unfold gaussian_draw. rewrite Hmu, Hls. simpl.
  pose proof (draws_Forall (draws rs_randn (length mu))
                (fun z => length z = length mu) n rng
                (fun s => draws_length rs_randn (length mu) s)) as HF.
  destruct (draws (draws rs_randn (length mu)) n rng) as [z rng']. simpl in *.
  rewrite (mapM_ok _ (scale_shift mu ls)); [reflexivity|].
  intros row Hrow. rewrite Forall_forall in HF. specialize (HF row Hrow).
  cbv beta in HF.
  rewrite broadcast2_same by (rewrite length_map; lia). simpl.
  apply broadcast2_same. rewrite zip_with_length; rewrite ?length_map; lia.
Qed.

Lemma scale_shift_length mu ls (z : @vec T) :
  length mu = length ls -> length z = length mu ->
  length (scale_shift mu ls z) = length mu.
Proof.
  intros Hl Hz. unfold scale_shift.
  assert (Hi : length (zip_with smul z (map sexp ls)) = length mu)
    by (rewrite zip_with_length; rewrite ?length_map; lia).
  rewrite zip_with_length; lia.
Qed.

Lemma gaussian_draw_shape (d : dict (@vec T)) mu ls n rng :
  dict_get d "location" = Ok mu -> dict_get d "log_scale" = Ok ls ->
  length mu = length ls ->
  exists thetas r, gaussian_draw d n rng = Ok (thetas, r) /\
                   length thetas = n /\
                   Forall (fun theta => length theta = length mu) thetas.
Proof.
  intros Hmu Hls Hl. eexists _, _. split; [exact (gaussian_draw_ok d n rng Hmu Hls Hl)|]. split.
  - now rewrite length_map, draws_length.
  - apply Forall_forall. intros theta Hin. apply in_map_iff in Hin.
    destruct Hin as [z [<- Hz]]. apply scale_shift_length; auto.
    pose proof (draws_Forall (draws rs_randn (length mu))
                  (fun z => length z = length mu) n rng
                  (fun s => draws_length rs_randn (length mu) s)) as HF.
    rewrite Forall_forall in HF. exact (HF z Hz).
Qed.

Lemma simulator_one (theta : @vec T) r :
  2 <= length theta ->
  simulator theta 1 r =
    Ok ([[fst (rs_norm (nth 0 theta s0) (sexp (nth 1 theta s0)) r)]],
        snd (rs_norm (nth 0 theta s0) (sexp (nth 1 theta s0)) r)).
Proof.
  intros Hl. destruct theta as [|a [|b theta]]; simpl in Hl; try lia.
  unfold simulator. simpl. destruct (rs_norm a (sexp b) r). reflexivity.
Qed.

Lemma simulator_ok (theta : @vec T) n r :
  2 <= length theta ->
  exists xs r', simulator theta n r = Ok (map (fun x => [x]) xs, r') /\ length xs = n.
Proof.
  intros Hl. destruct theta as [|a [|b theta]]; simpl in Hl; try lia.
  unfold simulator. simpl.
  pose proof (draws_length (rs_norm a (sexp b)) n r) as Hd.
  destruct (draws (rs_norm a (sexp b)) n r) as [xs r']. eauto.
Qed.

Lemma grad_gaussian_logpdf_ok (d : dict (@vec T)) mu ls theta :
  dict_get d "location" = Ok mu -> dict_get d "log_scale" = Ok ls ->
  length mu = length ls -> length theta = length mu ->
  grad_gaussian_logpdf d theta =
    Ok [("location", fst (grad_log_density mu ls theta));
        ("log_scale", snd (grad_log_density mu ls theta))].
Proof.
  intros Hmu Hls Hl Ht. unfold grad_gaussian_logpdf. rewrite Hmu, Hls. simpl.
  rewrite broadcast2_same by lia. simpl.
  rewrite broadcast2_same by (rewrite zip_with_length, ?length_map; lia). simpl.
  rewrite broadcast2_same
    by (rewrite !length_map, zip_with_length; lia). simpl.
  reflexivity.
Qed.

Lemma grad_log_density_length mu ls (theta : @vec T) :
  length mu = length ls -> length theta = length mu ->
  length (fst (grad_log_density mu ls theta)) = length mu /\
  length (snd (grad_log_density mu ls theta)) = length mu.
Proof.
  intros. unfold grad_log_density. simpl.
  rewrite ?length_map, !zip_with_length;
    rewrite ?length_map, ?zip_with_length; lia.
Qed.

End ProposalFacts.

(** * The gradient estimator computes the estimator of section 4.3 *)

Section EstimatorFacts.

Context {T : Type} `{ST : Scalar T} `{RG : RandomGen T} `{AG : Autograd T}.
Context {SL : @ScalarLaws T ST}.

Variable G : Globals (T := T).

Local Abbreviation two mu ls := [("location", mu); ("log_scale", ls)].

Lemma get_location (a b : @vec T) : dict_get (two a b) "location" = Ok a.
Proof. reflexivity. Qed.

Lemma get_log_scale (a b : @vec T) : dict_get (two a b) "log_scale" = Ok b.
Proof. reflexivity. Qed.

Lemma set_location (a b c : @vec T) : dict_set (two a b) "location" c = two c b.
Proof. reflexivity. Qed.

Lemma set_log_scale (a b c : @vec T) : dict_set (two a b) "log_scale" c = two a c.
Proof. reflexivity. Qed.

Lemma accumulate_two (s : T) (g1 g2 u1 u2 : @vec T) :
  length g1 = length u1 -> length g2 = length u2 ->
  accumulate [s] (two g1 g2) (two u1 u2) =
    Ok (two (zip_with sadd u1 (map (smul (sopp s)) g1))
            (zip_with sadd u2 (map (smul (sopp s)) g2))).
Proof.
  intros H1 H2. unfold accumulate. cbn [foldM fst snd map].
  rewrite get_location. cbn [rbind].
  rewrite broadcast2_single_l. cbn [rbind].
  rewrite iadd_same by (rewrite length_map; lia). cbn [rbind].
  rewrite set_location, get_log_scale. cbn [rbind].
  rewrite broadcast2_single_l. cbn [rbind].
  rewrite iadd_same by (rewrite length_map; lia). cbn [rbind].
  rewrite set_log_scale. reflexivity.
Qed.

Lemma zeros_length (n : nat) : length (@zeros T _ n) = n.
Proof. apply repeat_length. Qed.

Lemma zip_zeros_l (v : @vec T) : zip_with sadd (zeros (length v)) v = v.
Proof.
  induction v as [|a v IH]; simpl; [reflexivity|].
  unfold zeros in IH. rewrite IH, sadd_0_l. reflexivity.
Qed.

Lemma add_entropy_two (mu ls : @vec T) :
  add_entropy (two (map (fun _ => s0) mu) (map (fun _ => s1) ls))
              (two (zeros (length mu)) (zeros (length ls))) =
    Ok (two (map (fun _ => s0) mu) (map (fun _ => s1) ls)).
Proof.
  unfold add_entropy. cbn [foldM fst snd].
  rewrite get_location. cbn [rbind].
  rewrite iadd_same by (now rewrite zeros_length, length_map). cbn [rbind].
  rewrite set_location, get_log_scale. cbn [rbind].
  rewrite iadd_same by (now rewrite zeros_length, length_map). cbn [rbind].
  rewrite set_log_scale.
  rewrite <- (length_map (fun _ => s0) mu) at 1.
  rewrite <- (length_map (fun _ => s1) ls) at 1.
  now rewrite !zip_zeros_l.
Qed.

Lemma finish_two (m : nat) (gam : T) (e1 e2 u1 u2 : @vec T) :
  m <> 0 -> length e1 = length u1 -> length e2 = length u2 ->
  finish m gam (two e1 e2) (two u1 u2) =
    Ok (two (zip_with sadd (map (smul (sdiv s1 (of_nat m))) u1) (map (smul gam) e1))
            (zip_with sadd (map (smul (sdiv s1 (of_nat m))) u2) (map (smul gam) e2))).
Proof.
  intros Hm H1 H2. unfold finish. cbn [keys map fst foldM]. unfold finish_step.
  destruct (Nat.eqb_spec m 0) as [|_]; [contradiction|]. cbn [rbind].
  rewrite !get_location. cbn [rbind].
  rewrite broadcast2_same by (rewrite !length_map; lia). cbn [rbind].
  rewrite set_location, !get_log_scale. cbn [rbind].
  rewrite broadcast2_same by (rewrite !length_map; lia). cbn [rbind].
  rewrite set_log_scale. reflexivity.
Qed.


Lemma fold_zip_length (terms : list (@vec T)) (u : @vec T) :
  Forall (fun t => length t = length u) terms ->
  length (fold_left (zip_with sadd) terms u) = length u.
Proof.
  revert u. induction terms as [|t terms IH]; intros u HF; simpl; [reflexivity|].
  inversion HF as [|? ? Ht HF']; subst.
  assert (Hz : length (zip_with sadd u t) = length u)
    by (apply zip_with_length; auto).
  rewrite IH; [exact Hz|].
  eapply Forall_impl; [|exact HF']. cbv beta. intros; lia.
Qed.

Lemma total_loc_length pc (mu ls : @vec T) samples u :
  length mu = length ls -> length u = length mu ->
  Forall (fun s => length (fst s) = length mu) samples ->
  length (total_loc pc mu ls samples u) = length mu.
Proof.
  intros Hl Hu HF. unfold total_loc. rewrite fold_zip_length; [exact Hu|].
  apply Forall_map. eapply Forall_impl; [|exact HF]. cbv beta.
  intros s Hs. rewrite length_map.
  destruct (grad_log_density_length mu ls (fst s) Hl Hs). lia.
Qed.

Lemma total_ls_length pc (mu ls : @vec T) samples u :
  length mu = length ls -> length u = length mu ->
  Forall (fun s => length (fst s) = length mu) samples ->
  length (total_ls pc mu ls samples u) = length mu.
Proof.
  intros Hl Hu HF. unfold total_ls. rewrite fold_zip_length; [exact Hu|].
  apply Forall_map. eapply Forall_impl; [|exact HF]. cbv beta.
  intros s Hs. rewrite length_map.
  destruct (grad_log_density_length mu ls (fst s) Hl Hs). lia.
Qed.

Lemma Forall_combine_fst {A B} (P : A -> Prop) (l : list A) (l' : list B) :
  Forall P l -> Forall (fun s => P (fst s)) (combine l l').
Proof.
  intros HF. revert l'. induction HF as [|a l Ha HF IH]; intros [|b l']; simpl;
    constructor; auto.
Qed.

Lemma simulate_each_length (thetas : @matrix T) r :
  length (fst (simulate_each thetas r)) = length thetas.
Proof.
  revert r. induction thetas as [|theta thetas IH]; intros r; simpl; [reflexivity|].
  destruct (rs_norm _ _ r) as [x r1]. specialize (IH r1).
  destruct (simulate_each thetas r1) as [xs r2]. simpl in *. now rewrite IH.
Qed.

Lemma with_global_simulator (theta : @vec T) (w : World) :
  2 <= length theta ->
  with_global (simulator theta 1) w =
    Done [[fst (rs_norm (nth 0 theta s0) (sexp (nth 1 theta s0)) (np_random w))]]
         (set_np_random
            (snd (rs_norm (nth 0 theta s0) (sexp (nth 1 theta s0)) (np_random w))) w).
Proof.
  intros Hl. unfold with_global. now rewrite simulator_one.
Qed.

Lemma bind_done {A B} (m : M A) (k : A -> M B) (w w' : World) a :
  m w = Done a w' -> bind m k w = k a w'.
Proof. intros E. unfold bind. now rewrite E. Qed.

Lemma bind_abort {A B} (m : M A) (k : A -> M B) (w w' : World) e :
  m w = Abort e w' -> bind m k w = Abort e w'.
Proof. intros E. unfold bind. now rewrite E. Qed.

Lemma bind_lift_ok {A B} (a : A) (k : A -> M B) (w : World) :
  bind (lift (Ok a)) k w = k a w.
Proof. reflexivity. Qed.

Lemma bind_read {A B} (f : World -> A) (k : A -> M B) (w : World) :
  bind (read f) k w = k (f w) w.
Proof. reflexivity. Qed.

Lemma bind_modify {B} (f : World -> World) (k : unit -> M B) (w : World) :
  bind (modify f) k w = k tt (f w).
Proof. reflexivity. Qed.

Lemma bind_emit {B} (e : event) (k : unit -> M B) (w : World) :
  bind (emit e) k w = k tt (set_history (history w ++ [e]) w).
Proof. reflexivity. Qed.

Lemma sampling_step (mu ls theta u1 u2 : @vec T) (w : World) :
  length mu = length ls -> 2 <= length mu -> length theta = length mu ->
  critic_ok 1 (params_critic w) = true ->
  length u1 = length mu -> length u2 = length mu ->
  let x := fst (rs_norm (nth 0 theta s0) (sexp (nth 1 theta s0)) (np_random w)) in
  let r := snd (rs_norm (nth 0 theta s0) (sexp (nth 1 theta s0)) (np_random w)) in
  sampling_body (two mu ls) (two u1 u2) theta w =
    Done (two (zip_with sadd u1
                 (map (smul (sopp (score (params_critic w) [x])))
                      (fst (grad_log_density mu ls theta))))
              (zip_with sadd u2
                 (map (smul (sopp (score (params_critic w) [x])))
                      (snd (grad_log_density mu ls theta)))))
         (set_np_random r w).
Proof.
  intros Hl H2 Ht Hc Hu1 Hu2 x r. unfold sampling_body.
  erewrite bind_done by (apply with_global_simulator; lia).
  rewrite bind_read. cbn [params_critic set_np_random].
  rewrite (predict_ok (nf := 1) (params_critic w) (X := [[_]]))
    by (auto; repeat constructor).
  rewrite bind_lift_ok. cbn [map].
  rewrite (grad_gaussian_logpdf_ok (two mu ls) theta
             (get_location mu ls) (get_log_scale mu ls) Hl Ht).
  rewrite bind_lift_ok.
  destruct (grad_log_density_length mu ls theta Hl Ht) as [Hg1 Hg2].
  rewrite accumulate_two by lia. reflexivity.
Qed.

Lemma sampling_loop (mu ls : @vec T) (thetas : @matrix T) :
  length mu = length ls -> 2 <= length mu ->
  Forall (fun theta => length theta = length mu) thetas ->
  forall (w : World) (u1 u2 : @vec T),
    critic_ok 1 (params_critic w) = true ->
    length u1 = length mu -> length u2 = length mu ->
    foldW (sampling_body (two mu ls)) thetas (two u1 u2) w =
      Done (two (total_loc (params_critic w) mu ls
                   (combine thetas (fst (simulate_each thetas (np_random w)))) u1)
                (total_ls (params_critic w) mu ls
                   (combine thetas (fst (simulate_each thetas (np_random w)))) u2))
           (set_np_random (snd (simulate_each thetas (np_random w))) w).
Proof.
  intros Hl H2 HF. induction HF as [|theta thetas Ht HF IH]; intros w u1 u2 Hc Hu1 Hu2.
  - destruct w. reflexivity.
  - cbn [foldW].
    erewrite bind_done by (now apply sampling_step).
    rewrite IH; cbn [params_critic np_random set_np_random];
      try (rewrite zip_with_length; rewrite ?length_map; try lia;
           destruct (grad_log_density_length mu ls theta Hl Ht); lia); auto.
    cbn [simulate_each].
    destruct (rs_norm (nth 0 theta s0) (sexp (nth 1 theta s0)) (np_random w))
      as [x r1]. cbn [fst snd].
    destruct (simulate_each thetas r1) as [xs r2]. cbn [fst snd combine].
    reflexivity.
Qed.


(** C1.  Every call [approx_grad_u(params_proposal, i)] on variational
    parameters [{location: mu, log_scale: ls}] returns, and what it returns
    is the estimator of section 4.3: [M = batch_size] parameter vectors are
    drawn from the proposal with the stream seeded by [i], one observation
    is simulated for each of them from the global random state, each is
    scored by the global critic, [-score(x) * grad_log_density(theta)] is
    accumulated for each parameter group, the total is multiplied by
    [1 / M], and [gamma * grad_entropy()] is added once.  The call leaves
    the state as it was, but for the global random state and the history. *)
Theorem approx_grad_u_estimator (mu ls : @vec T) (i : nat) (gam : T) (w : World) :
  length mu = length ls -> 2 <= length mu ->
  critic_ok 1 (params_critic w) = true ->
  batch_size G <> 0 ->
  exists thetas r,
    gaussian_draw (two mu ls) (batch_size G) (rs_seed i) = Ok (thetas, r) /\
    length thetas = batch_size G /\
    length (fst (simulate_each thetas (np_random w))) = batch_size G /\
    approx_grad_u_gamma G (two mu ls) i gam w =
      Done (estimator (params_critic w) mu ls gam
              (combine thetas (fst (simulate_each thetas (np_random w)))))
           (mkWorld (params_critic w) (params_proposal w) (opt_critic w)
                    (opt_proposal w) (loss_d w)
                    (snd (simulate_each thetas (np_random w)))
                    (history w ++ [EvApproxGradU i])).
Proof.
  intros Hl H2 Hc Hm.
  destruct (gaussian_draw_shape (two mu ls) (batch_size G) (rs_seed i)
              (get_location mu ls) (get_log_scale mu ls) Hl)
    as (thetas & r & Hd & Hn & HF).
  exists thetas, r. split; [exact Hd|]. split; [exact Hn|].
  split; [now rewrite simulate_each_length|].
  unfold approx_grad_u_gamma. rewrite bind_emit. rewrite Hd, bind_lift_ok.
  cbn [map fst snd].
  erewrite bind_done.
  2:{ apply sampling_loop; auto; cbn [params_critic set_history];
      auto using zeros_length. rewrite zeros_length; lia. }
  cbn [params_critic np_random set_history].
  unfold grad_gaussian_entropy. rewrite get_location, get_log_scale.
  cbn [rbind]. rewrite bind_lift_ok.
  rewrite add_entropy_two, bind_lift_ok.
  rewrite finish_two.
  - unfold estimator, lift. f_equal.
    rewrite length_combine, simulate_each_length, Nat.min_id.
    reflexivity.
  - lia.
  - rewrite length_map, total_loc_length; auto using zeros_length.
    exact (Forall_combine_fst (P := fun t => length t = length mu) _ HF).
  - rewrite length_map, total_ls_length; auto.
    + rewrite zeros_length; lia.
    + exact (Forall_combine_fst (P := fun t => length t = length mu) _ HF).
Qed.

End EstimatorFacts.

(** * The gradient estimate has the shape of the parameters *)

Section DictFacts.

Context {T : Type}.

Lemma dict_shape_get (d e : dict (@vec T)) k v :
  dict_shape d = dict_shape e -> dict_get d k = Ok v ->
  exists v', dict_get e k = Ok v' /\ length v' = length v.
Proof.
  revert e. induction d as [|[k0 v0] d IH]; intros e Hs Hg; simpl in Hg.
  - discriminate.
  - destruct e as [|[k1 v1] e]; simpl in Hs; [discriminate|].
    inversion Hs as [[Hk Hv Hs']]. subst k1. simpl.
    destruct (String.eqb k k0).
    + inversion Hg; subst. eauto.
    + now apply IH.
Qed.

Lemma dict_set_shape (d : dict (@vec T)) k v v' :
  dict_get d k = Ok v -> length v' = length v ->
  dict_shape (dict_set d k v') = dict_shape d.
Proof.
  induction d as [|[k0 v0] d IH]; intros Hg Hl; simpl in *.
  - discriminate.
  - destruct (String.eqb k k0); simpl.
    + inversion Hg; subst. now rewrite Hl.
    + f_equal. now apply IH.
Qed.

Lemma keys_get (d : dict (@vec T)) k :
  In k (keys d) -> exists v, dict_get d k = Ok v.
Proof.
  induction d as [|[k0 v0] d IH]; simpl; intros Hin; [contradiction|].
  destruct (String.eqb_spec k k0) as [->|Hne]; [eauto|].
  destruct Hin as [Heq|Hin]; [congruence|]. now apply IH.
Qed.

Lemma dict_shape_keys (d e : dict (@vec T)) :
  dict_shape d = dict_shape e -> keys d = keys e.
Proof.
  intros Hs. unfold keys.
  assert (E : forall x : dict (@vec T), map fst x = map fst (dict_shape x)).
  { intros x. unfold dict_shape. rewrite map_map. reflexivity. }
  now rewrite (E d), (E e), Hs.
Qed.

Lemma dict_shape_lengths (d e : dict (@vec T)) :
  dict_shape d = dict_shape e ->
  map (fun kv => length (snd kv)) d = map (fun kv => length (snd kv)) e.
Proof.
  revert e. induction d as [|[k v] d IH]; intros [|[k' v'] e] Hs;
    simpl in *; try discriminate; [reflexivity|].
  inversion Hs. f_equal; auto.
Qed.

End DictFacts.

Section ShapeOfEstimate.

Context {T : Type} `{ST : Scalar T} `{RG : RandomGen T} `{AG : Autograd T}.

Variable G : Globals (T := T).

Lemma zeros_like_shape (pp : dict (@vec T)) :
  dict_shape (map (fun kv => (fst kv, zeros (length (snd kv)))) pp) = dict_shape pp.
Proof.
  unfold dict_shape. rewrite map_map. apply map_ext. intros [k v]. simpl.
  unfold zeros. now rewrite repeat_length.
Qed.

Lemma accumulate_shape (s : T) (g1 g2 : @vec T) (gu : dict (@vec T)) u1 u2 :
  dict_get gu "location" = Ok u1 -> dict_get gu "log_scale" = Ok u2 ->
  length g1 = length u1 -> length g2 = length u2 ->
  exists gu', accumulate [s] [("location", g1); ("log_scale", g2)] gu = Ok gu' /\
              dict_shape gu' = dict_shape gu.
Proof.
  intros H1 H2 L1 L2. unfold accumulate. cbn [foldM fst snd map].
  rewrite H1. cbn [rbind]. rewrite broadcast2_single_l. cbn [rbind].
  rewrite iadd_same by (rewrite length_map; lia). cbn [rbind foldM fst snd].
  set (gu1 := dict_set gu "location" _).
  assert (S1 : dict_shape gu1 = dict_shape gu).
  { eapply dict_set_shape; [exact H1|].
    rewrite zip_with_length; rewrite ?length_map; lia. }
  destruct (dict_shape_get gu gu1 "log_scale" (eq_sym S1) H2) as (u2' & H2' & L2').
  rewrite H2'. cbn [rbind]. rewrite broadcast2_single_l. cbn [rbind].
  rewrite iadd_same by (rewrite length_map; lia). cbn [rbind].
  eexists. split; [reflexivity|]. rewrite <- S1.
  eapply dict_set_shape; [exact H2'|].
  rewrite zip_with_length; rewrite ?length_map; lia.
Qed.

Lemma sampling_body_shape (pp gu : dict (@vec T)) mu ls theta (w : World) :
  dict_get pp "location" = Ok mu -> dict_get pp "log_scale" = Ok ls ->
  length mu = length ls -> 2 <= length mu -> length theta = length mu ->
  critic_ok 1 (params_critic w) = true ->
  dict_shape gu = dict_shape pp ->
  exists gu' r, sampling_body pp gu theta w = Done gu' (set_np_random r w) /\
                dict_shape gu' = dict_shape pp.
Proof.
  intros Hmu Hls Hl H2 Ht Hc Hs. unfold sampling_body.
  erewrite bind_done by (apply with_global_simulator; lia).
  rewrite bind_read. cbn [params_critic set_np_random].
  rewrite (predict_ok (nf := 1) (params_critic w) (X := [[_]]))
    by (auto; repeat constructor).
  rewrite bind_lift_ok. cbn [map].
  rewrite (grad_gaussian_logpdf_ok pp theta Hmu Hls Hl Ht), bind_lift_ok.
  destruct (grad_log_density_length mu ls theta Hl Ht) as [Hg1 Hg2].
  destruct (dict_shape_get pp gu "location" (eq_sym Hs) Hmu) as (u1 & Hu1 & Lu1).
  destruct (dict_shape_get pp gu "log_scale" (eq_sym Hs) Hls) as (u2 & Hu2 & Lu2).
  destruct (accumulate_shape
              (score (params_critic w)
                 [fst (rs_norm (nth 0 theta s0) (sexp (nth 1 theta s0)) (np_random w))])
              (fst (grad_log_density mu ls theta))
              (snd (grad_log_density mu ls theta)) gu Hu1 Hu2)
    as (gu' & Ha & Sa); try lia.
  rewrite Ha. eexists _, _. split; [reflexivity|]. congruence.
Qed.

Lemma sampling_loop_shape (pp : dict (@vec T)) mu ls thetas :
  dict_get pp "location" = Ok mu -> dict_get pp "log_scale" = Ok ls ->
  length mu = length ls -> 2 <= length mu ->
  Forall (fun theta => length theta = length mu) thetas ->
  forall gu (w : World),
    critic_ok 1 (params_critic w) = true ->
    dict_shape gu = dict_shape pp ->
    exists gu' r, foldW (sampling_body pp) thetas gu w = Done gu' (set_np_random r w) /\
                  dict_shape gu' = dict_shape pp.
Proof.
  intros Hmu Hls Hl H2 HF.
  induction HF as [|theta thetas Ht HF IH]; intros gu w Hc Hs.
  - exists gu, (np_random w). split; [destruct w; reflexivity | exact Hs].
  - cbn [foldW].
    destruct (sampling_body_shape pp gu theta w Hmu Hls Hl H2 Ht Hc Hs)
      as (gu1 & r1 & E1 & S1).
    erewrite bind_done by exact E1.
    destruct (IH gu1 (set_np_random r1 w) Hc S1) as (gu2 & r2 & E2 & S2).
    exists gu2, r2. split; [rewrite E2; reflexivity | exact S2].
Qed.

Lemma add_entropy_shape (pp ge : dict (@vec T)) mu ls :
  dict_get pp "location" = Ok mu -> dict_get pp "log_scale" = Ok ls ->
  dict_shape ge = dict_shape pp ->
  exists ge', add_entropy [("location", map (fun _ => s0) mu);
                           ("log_scale", map (fun _ => s1) ls)] ge = Ok ge' /\
              dict_shape ge' = dict_shape pp.
Proof.
  intros Hmu Hls Hs. unfold add_entropy. cbn [foldM fst snd].
  destruct (dict_shape_get pp ge "location" (eq_sym Hs) Hmu) as (u1 & Hu1 & Lu1).
  rewrite Hu1. cbn [rbind].
  rewrite iadd_same by (rewrite length_map; lia). cbn [rbind foldM fst snd].
  set (ge1 := dict_set ge "location" _).
  assert (S1 : dict_shape ge1 = dict_shape ge).
  { eapply dict_set_shape; [exact Hu1|].
    rewrite zip_with_length; rewrite ?length_map; lia. }
  destruct (dict_shape_get pp ge1 "log_scale" (eq_sym (eq_trans S1 Hs)) Hls)
    as (u2 & Hu2 & Lu2).
  rewrite Hu2. cbn [rbind].
  rewrite iadd_same by (rewrite length_map; lia). cbn [rbind].
  eexists. split; [reflexivity|]. rewrite <- Hs, <- S1.
  eapply dict_set_shape; [exact Hu2|].
  rewrite zip_with_length; rewrite ?length_map; lia.
Qed.

Lemma finish_shape (m : nat) (gam : T) (ge : dict (@vec T)) (ks : list string) :
  m <> 0 ->
  forall gu : dict (@vec T),
    dict_shape ge = dict_shape gu ->
    (forall k, In k ks -> In k (keys gu)) ->
    exists gu',
      foldM (finish_step m gam ge) ks gu = Ok gu' /\
      dict_shape gu' = dict_shape gu.
Proof.
  intros Hm. induction ks as [|k ks IH]; intros gu Hs Hin; cbn [foldM].
  - eauto.
  - unfold finish_step at 1.
    destruct (Nat.eqb_spec m 0) as [|_]; [contradiction|]. cbn [rbind].
    destruct (keys_get gu k (Hin k (or_introl eq_refl))) as (cur & Hcur).
    rewrite Hcur. cbn [rbind].
    destruct (dict_shape_get gu ge k (eq_sym Hs) Hcur) as (ent & Hent & Lent).
    rewrite Hent. cbn [rbind].
    rewrite broadcast2_same by (rewrite !length_map; lia). cbn [rbind].
    set (gu1 := dict_set gu k _).
    assert (S1 : dict_shape gu1 = dict_shape gu).
    { eapply dict_set_shape; [exact Hcur|].
      rewrite zip_with_length; rewrite ?length_map; lia. }
    destruct (IH gu1) as (gu' & E & S').
    + congruence.
    + intros k' Hk'. rewrite (dict_shape_keys gu1 gu S1). apply Hin. now right.
    + exists gu'. split; [exact E | congruence].
Qed.

Lemma approx_grad_u_runs (pp : dict (@vec T)) (i : nat) (w : World) :
  drawable pp = true ->
  critic_ok 1 (params_critic w) = true ->
  batch_size G <> 0 ->
  exists g r,
    approx_grad_u G pp i w =
      Done g (set_np_random r (set_history (history w ++ [EvApproxGradU i]) w)) /\
    dict_shape g = dict_shape pp.
Proof.
  intros Hd Hc Hm.
  destruct (drawable_inv pp Hd) as (mu & ls & Hmu & Hls & Hl & H2).
  destruct (gaussian_draw_shape pp (batch_size G) (rs_seed i) Hmu Hls Hl)
    as (thetas & r & Hg & Hn & HF).
  unfold approx_grad_u, approx_grad_u_gamma. rewrite bind_emit.
  rewrite Hg, bind_lift_ok. cbn [fst].
  destruct (sampling_loop_shape pp Hmu Hls Hl H2 HF
              (map (fun kv => (fst kv, zeros (length (snd kv)))) pp)
              (set_history (history w ++ [EvApproxGradU i]) w) Hc
              (zeros_like_shape pp)) as (gu & r1 & E1 & S1).
  erewrite bind_done by exact E1.
  unfold grad_gaussian_entropy. rewrite Hmu, Hls. cbn [rbind].
  rewrite bind_lift_ok.
  destruct (add_entropy_shape pp
              (map (fun kv => (fst kv, zeros (length (snd kv)))) pp)
              Hmu Hls (zeros_like_shape pp)) as (ge & E2 & S2).
  rewrite E2, bind_lift_ok.
  assert (Hm' : length thetas <> 0) by lia.
  assert (Hs' : dict_shape ge = dict_shape gu) by congruence.
  destruct (@finish_shape (length thetas) (gamma G) ge (keys gu)
              Hm' gu Hs' (fun k H => H)) as (g & E3 & S3).
  unfold finish. rewrite E3. exists g, r1. split; [reflexivity|]. congruence.
Qed.

(** C10.  For every dictionary of vectors the proposal can be drawn from,
    [approx_grad_u] returns a dictionary with the same keys, in the same
    order, whose values have the lengths of the corresponding
    parameters. *)
Theorem approx_grad_u_shape (pp : dict (@vec T)) (i : nat) (w : World) :
  drawable pp = true ->
  critic_ok 1 (params_critic w) = true ->
  batch_size G <> 0 ->
  exists g w',
    approx_grad_u G pp i w = Done g w' /\
    keys g = keys pp /\
    map (fun kv => length (snd kv)) g = map (fun kv => length (snd kv)) pp.
Proof.
  intros Hd Hc Hm.
  destruct (approx_grad_u_runs pp i w Hd Hc Hm) as (g & r & E & S).
  exists g. eexists. split; [exact E|]. split.
  - now apply dict_shape_keys.
  - now apply dict_shape_lengths.
Qed.

End ShapeOfEstimate.

(** * The batch of the critic loss *)

Section BatchFacts.

Context {T : Type} `{ST : Scalar T} `{RG : RandomGen T} `{AG : Autograd T}.
Context {RL : @RandomGenLaws T RG}.

Lemma n_obs_pos : n_obs <> 0.
Proof. unfold n_obs. lia. Qed.

Lemma X_obs_rows :
  exists xs : list T, @X_obs T _ _ = map (fun x => [x]) xs /\ length xs = n_obs.
Proof.
  unfold X_obs.
  destruct (simulator_ok (@true_theta T _) n_obs (rs_seed 123)) as (xs & r & E & L).
  - simpl. lia.
  - rewrite E. eauto.
Qed.

Lemma X_obs_length : length (@X_obs T _ _) = n_obs.
Proof. destruct X_obs_rows as (xs & E & L). now rewrite E, length_map. Qed.

Lemma X_obs_width : Forall (fun r => length r = 1) (@X_obs T _ _).
Proof.
  destruct X_obs_rows as (xs & E & L). rewrite E.
  apply Forall_forall. intros r Hr. apply in_map_iff in Hr.
  now destruct Hr as (x & <- & _).
Qed.

Lemma n_features_one : @n_features T _ _ = 1.
Proof.
  unfold n_features. destruct X_obs_rows as (xs & E & L). rewrite E.
  destruct xs as [|x xs]; simpl in *; [|reflexivity].
  pose proof n_obs_pos. lia.
Qed.

(** ** The generated half *)

Lemma set_row_at (done rest : @matrix T) (old row : @vec T) :
  length row = length old ->
  set_row (done ++ old :: rest) (length done) row = Ok (done ++ row :: rest).
Proof.
  intros Hl. induction done as [|d done IH]; simpl.
  - now rewrite Hl, Nat.eqb_refl.
  - now rewrite IH.
Qed.

Lemma generate_loop (z : @vec T) (thetas : @matrix T) :
  length z = 1 ->
  Forall (fun theta => 2 <= length theta) thetas ->
  forall (done : @matrix T) (rest : nat) (r : RandomState),
    foldM generate_step
          (combine (seq (length done) (length thetas)) thetas)
          (done ++ repeat z (length thetas + rest), r) =
      Ok (done ++ map (fun x => [x]) (fst (simulate_each thetas r)) ++ repeat z rest,
          snd (simulate_each thetas r)).
Proof.
  intros Hz HF. induction HF as [|theta thetas Ht HF IH]; intros done rest r.
  - reflexivity.
  - cbn [length seq combine foldM plus repeat]. unfold generate_step at 1.
    cbn [fst snd].
    rewrite simulator_one by exact Ht. cbn [rbind concat app].
    rewrite set_row_at by (simpl; lia). cbn [rbind].
    specialize (IH (done ++ [[fst (rs_norm (nth 0 theta s0) (sexp (nth 1 theta s0)) r)]])
                   rest
                   (snd (rs_norm (nth 0 theta s0) (sexp (nth 1 theta s0)) r))).
    rewrite length_app in IH. cbn [length] in IH.
    rewrite Nat.add_1_r in IH. rewrite <- app_assoc in IH. cbn [app] in IH.
    refine (eq_trans IH _). cbn [simulate_each].
    destruct (rs_norm (nth 0 theta s0) (sexp (nth 1 theta s0)) r) as [x r1].
    cbn [fst snd].
    destruct (simulate_each thetas r1) as [xs r2]. cbn [fst snd map].
    rewrite <- app_assoc. reflexivity.
Qed.

Lemma generate_ok (thetas : @matrix T) (rng : RandomState) (bs : nat) :
  length thetas = bs / 2 ->
  Forall (fun theta => 2 <= length theta) thetas ->
  generate thetas rng bs =
    Ok (map (fun x => [x]) (fst (simulate_each thetas rng)),
        snd (simulate_each thetas rng)).
Proof.
  intros Hl HF. unfold generate, enumerate. rewrite <- Hl.
  assert (Hz : length (zeros (@n_features T _ _)) = 1)
    by now rewrite zeros_length, n_features_one.
  pose proof (@generate_loop (zeros n_features) thetas Hz HF [] 0 rng) as E.
  cbn [length app] in E. rewrite Nat.add_0_r in E.
  refine (eq_trans E _). cbn [repeat]. now rewrite app_nil_r.
Qed.

(** ** The observed half *)

Lemma in_firstn {A} (x : A) n (l : list A) : In x (firstn n l) -> In x l.
Proof.
  intros H. rewrite <- (firstn_skipn n l). apply in_or_app. now left.
Qed.


Lemma take_rows_ok (a : @matrix T) (idx : list nat) :
  Forall (fun i => i < length a) idx ->
  take_rows a idx = Ok (map (fun i => nth i a []) idx).
Proof.
  intros HF. unfold take_rows. apply mapM_ok. intros i Hi.
  rewrite Forall_forall in HF. specialize (HF i Hi).
  rewrite (nth_error_nth' a [] HF). reflexivity.
Qed.

Lemma permutation_bound n s :
  Forall (fun i => i < n) (fst (rs_permutation n s)).
Proof.
  apply Forall_forall. intros i Hi.
  apply (Permutation_in _ (rs_permutation_perm n s)) in Hi.
  apply in_seq in Hi. lia.
Qed.


Lemma permutation_length n s : length (fst (rs_permutation n s)) = n.
Proof.
  rewrite (Permutation_length (rs_permutation_perm n s)). apply length_seq.
Qed.

Lemma observe_ok (rng : RandomState) (bs : nat) :
  observe rng bs =
    Ok (map (fun j => nth j X_obs []) (observed_indices rng bs),
        snd (rs_permutation n_obs rng)).
Proof.
  unfold observe, observed_indices. rewrite X_obs_length.
  pose proof (permutation_bound n_obs rng) as HB.
  destruct (rs_permutation n_obs rng) as [indices rng']. cbn [fst snd] in *.
  rewrite take_rows_ok; [reflexivity|].
  rewrite X_obs_length. apply Forall_forall. intros j Hj.
  rewrite Forall_forall in HB. apply HB. eapply in_firstn; exact Hj.
Qed.

Lemma observed_indices_length rng bs :
  length (observed_indices rng bs) = Nat.min (bs / 2) n_obs.
Proof.
  unfold observed_indices. now rewrite length_firstn, permutation_length.
Qed.


Lemma observed_indices_bound rng bs :
  Forall (fun j => j < n_obs) (observed_indices rng bs).
Proof.
  unfold observed_indices. apply Forall_forall. intros j Hj.
  pose proof (permutation_bound n_obs rng) as HB. rewrite Forall_forall in HB.
  apply HB. eapply in_firstn; exact Hj.
Qed.

Lemma make_batch_ok (thetas : @matrix T) (i bs : nat) :
  length thetas = bs / 2 ->
  Forall (fun theta => 2 <= length theta) thetas ->
  make_batch thetas i bs =
    Ok (map (fun x => [x]) (fst (simulate_each thetas (rs_seed i))),
        map (fun j => nth j X_obs [])
            (observed_indices (snd (simulate_each thetas (rs_seed i))) bs),
        snd (rs_permutation n_obs (snd (simulate_each thetas (rs_seed i))))).
Proof.
  intros Hl HF. unfold make_batch.
  rewrite generate_ok by assumption. cbn [rbind].
  rewrite observe_ok. reflexivity.
Qed.


(** ** The Wasserstein term *)

Lemma zip_with_pair {A B C} (f g : A -> B -> C) (h : C -> C -> C) u v :
  zip_with h (zip_with f u v) (zip_with g u v) =
  map (fun p => h (f (fst p) (snd p)) (g (fst p) (snd p))) (combine u v).
Proof.
  revert v. induction u as [|a u IH]; intros [|b v]; simpl; try reflexivity.
  now rewrite IH.
Qed.

Lemma zip_with_map_l {A A' B C} (f : A' -> B -> C) (m : A -> A') u v :
  zip_with f (map m u) v = zip_with (fun a b => f (m a) b) u v.
Proof.
  revert v. induction u as [|a u IH]; intros [|b v]; simpl; try reflexivity.
  now rewrite IH.
Qed.

Lemma wgan_ok (y p : @vec T) :
  length y = length p -> wgan y p = Ok (wasserstein (combine y p)).
Proof.
  intros Hl. unfold wgan.
  rewrite broadcast2_same by (now rewrite length_map). cbn [rbind].
  rewrite broadcast2_same by (now rewrite length_map). cbn [rbind].
  rewrite broadcast2_same
    by (rewrite !zip_with_length; rewrite ?length_map; auto). cbn [rbind].
  unfold wasserstein. rewrite !zip_with_map_l, zip_with_pair. reflexivity.
Qed.

Lemma wgan_mismatch (y p : @vec T) :
  length y <> length p -> length y <> 1 -> length p <> 1 ->
  wgan y p = Raise shape_error.
Proof.
  intros H H1 H2. unfold wgan.
  rewrite broadcast2_mismatch by (rewrite ?length_map; auto). reflexivity.
Qed.

Lemma labels_length (bs : nat) : length (@labels T _ bs) = bs.
Proof.
  unfold labels. rewrite length_app, !repeat_length.
  pose proof (Nat.Div0.div_le_upper_bound bs 2 bs). lia.
Qed.

Lemma labels_even (bs : nat) :
  Nat.even bs = true ->
  @labels T _ bs = repeat s0 (bs / 2) ++ repeat s1 (bs / 2).
Proof.
  intros He. unfold labels. do 2 f_equal.
  apply Nat.even_spec in He. destruct He as [k ->].
  rewrite Nat.mul_comm, Nat.div_mul by lia. lia.
Qed.

Lemma combine_app {A B} (u u' : list A) (v v' : list B) :
  length u = length v ->
  combine (u ++ u') (v ++ v') = combine u v ++ combine u' v'.
Proof.
  revert v. induction u as [|a u IH]; intros [|b v] Hl; simpl in *; try lia.
  - reflexivity.
  - f_equal. apply IH. lia.
Qed.

(** ** The interpolated batch *)

Lemma draws_rows {S A} (f : S -> A * S) k r :
  draws (draws f 1) k r = (map (fun e => [e]) (fst (draws f k r)), snd (draws f k r)).
Proof.
  revert r. induction k as [|k IH]; intros r; [reflexivity|].
  cbn [draws]. destruct (f r) as [e r1]. rewrite IH.
  destruct (draws f k r1) as [l r2]. reflexivity.
Qed.

Lemma interpolation_rows (eps : list T) (Xo Xg : @matrix T) :
  Forall (fun r => length r = 1) Xo -> Forall (fun r => length r = 1) Xg ->
  zip_with (zip_with sadd)
    (zip_with (zip_with smul) (map (fun e => [e]) eps) Xo)
    (zip_with (zip_with smul) (map (map (ssub s1)) (map (fun e => [e]) eps)) Xg) =
  interpolation eps Xo Xg.
Proof.
  intros Ho. revert eps Xg. induction Ho as [|xo Xo Hxo Ho IH]; intros eps Xg Hg.
  - destruct eps; reflexivity.
  - destruct eps as [|e eps]; [reflexivity|].
    destruct Hg as [|xg Xg Hxg Hg]; [reflexivity|].
    destruct xo as [|a [|]]; simpl in Hxo; try discriminate.
    destruct xg as [|b [|]]; simpl in Hxg; try discriminate.
    specialize (IH eps Xg Hg). unfold interpolation in *. simpl.
    f_equal. exact IH.
Qed.

Lemma broadcast2d_same (f : T -> T -> T) (A B : @matrix T) :
  length A = length B ->
  (forall a b, In (a, b) (combine A B) -> length a = length b) ->
  broadcast2d f A B = Ok (zip_with (zip_with f) A B).
Proof.
  intros Hl Hr. unfold broadcast2d. apply bcast_same; [exact Hl|].
  intros a b Hin. apply broadcast2_same. now apply Hr.
Qed.

Lemma combine_width {A B} (P : A -> Prop) (Q : B -> Prop) u v a b :
  Forall P u -> Forall Q v -> In (a, b) (combine u v) -> P a /\ Q b.
Proof.
  intros Hu Hv Hin. rewrite Forall_forall in Hu, Hv. split.
  - apply Hu. eapply in_combine_l; exact Hin.
  - apply Hv. eapply in_combine_r; exact Hin.
Qed.

Lemma zip_rows_width (f : T -> T -> T) (A B : @matrix T) :
  Forall (fun r => length r = 1) A -> Forall (fun r => length r = 1) B ->
  Forall (fun r => length r = 1) (zip_with (zip_with f) A B).
Proof.
  intros HA. revert B. induction HA as [|a A Ha HA IH]; intros B HB.
  - constructor.
  - destruct HB as [|b B Hb HB]; [constructor|]. cbn [zip_with].
    constructor; [|now apply IH]. rewrite zip_with_length; lia.
Qed.

Lemma interpolate_ok (Xg Xo : @matrix T) (rng : RandomState) (bs : nat) :
  length Xg = bs / 2 -> length Xo = bs / 2 ->
  Forall (fun r => length r = 1) Xg -> Forall (fun r => length r = 1) Xo ->
  interpolate Xg Xo rng bs = Ok (interpolation (fst (draws rs_rand (bs / 2) rng)) Xo Xg).
Proof.
  intros Lg Lo Wg Wo. unfold interpolate. rewrite draws_rows.
  pose proof (draws_length rs_rand (bs / 2) rng) as Le.
  set (eps := fst (draws rs_rand (bs / 2) rng)) in *.
  assert (We : Forall (fun r : @vec T => length r = 1) (map (fun e => [e]) eps)).
  { apply Forall_forall. intros r Hr. apply in_map_iff in Hr.
    now destruct Hr as (e & <- & _). }
  assert (We' : Forall (fun r : @vec T => length r = 1)
                       (map (map (ssub s1)) (map (fun e => [e]) eps))).
  { apply Forall_forall. intros r Hr. apply in_map_iff in Hr.
    destruct Hr as (r' & <- & Hr'). rewrite length_map.
    rewrite Forall_forall in We. now apply We. }
  rewrite broadcast2d_same.
  2:{ rewrite length_map. lia. }
  2:{ intros a b Hin. destruct (combine_width _ _ We Wo Hin) as [-> ->]. reflexivity. }
  cbn [rbind]. rewrite broadcast2d_same.
  2:{ rewrite !length_map. lia. }
  2:{ intros a b Hin. destruct (combine_width _ _ We' Wg Hin) as [-> ->]. reflexivity. }
  cbn [rbind]. rewrite broadcast2d_same.
  2:{ rewrite !zip_with_length; rewrite ?length_map; lia. }
  2:{ intros a b Hin.
      destruct (combine_width _ _ (zip_rows_width smul We Wo)
                  (zip_rows_width smul We' Wg) Hin) as [-> ->]. reflexivity. }
  f_equal. now apply interpolation_rows.
Qed.

Lemma interpolation_width (eps : list T) (Xo Xg : @matrix T) :
  Forall (fun r => length r = 1) Xo -> Forall (fun r => length r = 1) Xg ->
  Forall (fun r => length r = 1) (interpolation eps Xo Xg).
Proof.
  intros Ho Hg. rewrite <- interpolation_rows by assumption.
  apply zip_rows_width; apply zip_rows_width; auto;
    apply Forall_forall; intros r Hr; apply in_map_iff in Hr.
  - now destruct Hr as (e & <- & _).
  - destruct Hr as (r' & <- & Hr'). rewrite length_map.
    apply in_map_iff in Hr'. now destruct Hr' as (e & <- & _).
Qed.

Lemma interpolation_length (eps : list T) (Xo Xg : @matrix T) :
  length eps = length Xo -> length Xo = length Xg ->
  length (interpolation eps Xo Xg) = length eps.
Proof.
  intros H1 H2. unfold interpolation.
  rewrite length_map, !length_combine. lia.
Qed.

End BatchFacts.

(** * The critic loss on a batch *)

Section LossFacts.

Context {T : Type} `{ST : Scalar T} `{RG : RandomGen T} `{AG : Autograd T}.
Context {RL : @RandomGenLaws T RG} {AL : @AutogradLaws T AG}.

Lemma even_halves (bs : nat) : Nat.even bs = true -> bs = bs / 2 + bs / 2.
Proof.
  intros He. apply Nat.even_spec in He. destruct He as [k ->].
  rewrite Nat.mul_comm, Nat.div_mul by lia. lia.
Qed.

Lemma gen_rows_width thetas i : Forall (fun r => length r = 1) (@gen_rows T _ _ thetas i).
Proof.
  apply Forall_forall. intros r Hr. apply in_map_iff in Hr.
  now destruct Hr as (x & <- & _).
Qed.

Lemma gen_rows_length thetas i : length (@gen_rows T _ _ thetas i) = length thetas.
Proof. unfold gen_rows. now rewrite length_map, simulate_each_length. Qed.

Lemma real_rows_width thetas i bs :
  Forall (fun r => length r = 1) (@real_rows T _ _ thetas i bs).
Proof.
  apply Forall_forall. intros r Hr. apply in_map_iff in Hr.
  destruct Hr as (j & <- & Hj).
  pose proof (observed_indices_bound (snd (simulate_each thetas (rs_seed i))) bs) as HB.
  rewrite Forall_forall in HB. specialize (HB j Hj). cbv beta in HB.
  pose proof (@X_obs_width T _ _) as HW. rewrite Forall_forall in HW.
  apply HW. apply nth_In. now rewrite X_obs_length.
Qed.

Lemma real_rows_length thetas i bs :
  length (@real_rows T _ _ thetas i bs) = Nat.min (bs / 2) n_obs.
Proof.
  unfold real_rows, real_indices. now rewrite length_map, observed_indices_length.
Qed.

Lemma make_batch_rows (thetas : @matrix T) (i bs : nat) :
  length thetas = bs / 2 ->
  Forall (fun theta => 2 <= length theta) thetas ->
  make_batch thetas i bs =
    Ok (gen_rows thetas i, real_rows thetas i bs,
        snd (rs_permutation n_obs (snd (simulate_each thetas (rs_seed i))))).
Proof. intros. now apply make_batch_ok. Qed.

Lemma stacked_width thetas i bs :
  Forall (fun r => length r = 1) (@gen_rows T _ _ thetas i ++ real_rows thetas i bs).
Proof. apply Forall_app. split; [apply gen_rows_width | apply real_rows_width]. Qed.

(** With as many labels as rows, the loss is the Wasserstein term plus the
    weighted penalty. *)
Lemma loss_body_ok (thetas : @matrix T) (p : CriticParams T) (i : nat) (lam : T)
    (bs : nat) :
  length thetas = bs / 2 ->
  Forall (fun theta => 2 <= length theta) thetas ->
  critic_ok 1 p = true ->
  Nat.even bs = true -> bs / 2 <= n_obs ->
  exists G,
    ag_elementwise_grad (fun X => predict X p)
      (interpolation (coefficients thetas i bs) (real_rows thetas i bs)
                     (gen_rows thetas i)) = Ok G /\
    length G = bs / 2 /\
    loss_critic_body thetas p i lam bs =
      Ok (sadd (wasserstein
                  (combine (repeat s0 (bs / 2)) (map (score p) (gen_rows thetas i))
                   ++ combine (repeat s1 (bs / 2))
                              (map (score p) (real_rows thetas i bs))))
               (smul lam (penalty G))).
Proof.
  intros Hl HF Hp He Hk.
  pose proof (even_halves bs He) as Hb.
  pose proof (gen_rows_length thetas i) as Lg.
  pose proof (real_rows_length thetas i bs) as Lo.
  rewrite Nat.min_l in Lo by exact Hk.
  set (X_hat := interpolation (coefficients thetas i bs) (real_rows thetas i bs)
                              (gen_rows thetas i)).
  assert (WX : Forall (fun r => length r = 1) X_hat)
    by (apply interpolation_width; [apply real_rows_width | apply gen_rows_width]).
  destruct (ag_elementwise_grad_ok (fun X => predict X p) X_hat
              (predict_ok p Hp WX)) as (G & EG & SG).
  exists G. split; [exact EG|]. split.
  { rewrite <- (length_map (@length T) G), SG, length_map. unfold X_hat.
    rewrite interpolation_length; unfold coefficients;
      rewrite ?draws_length.
    - lia.
    - lia.
    - lia. }
  unfold loss_critic_body. rewrite make_batch_rows by assumption. cbn [rbind].
  rewrite (predict_ok p Hp (stacked_width thetas i bs)). cbn [rbind].
  rewrite wgan_ok by (rewrite labels_length, length_map, length_app; lia).
  cbn [rbind].
  rewrite interpolate_ok;
    auto using gen_rows_width, real_rows_width; try lia.
  cbn [rbind]. fold (coefficients thetas i bs). fold X_hat.
  unfold gradient_penalty. rewrite EG. cbn [rbind].
  rewrite labels_even by exact He. rewrite map_app.
  rewrite combine_app by (rewrite repeat_length, length_map; lia).
  unfold penalty, row_norms. rewrite map_map. reflexivity.
Qed.

(** With another number of labels than rows, line 90 raises. *)
Lemma loss_body_mismatch (thetas : @matrix T) (p : CriticParams T) (i : nat)
    (lam : T) (bs : nat) :
  length thetas = bs / 2 ->
  Forall (fun theta => 2 <= length theta) thetas ->
  critic_ok 1 p = true ->
  bs <> bs / 2 + Nat.min (bs / 2) n_obs -> bs <> 1 ->
  bs / 2 + Nat.min (bs / 2) n_obs <> 1 ->
  loss_critic_body thetas p i lam bs = Raise shape_error.
Proof.
  intros Hl HF Hp Hne H1 H2.
  pose proof (gen_rows_length thetas i) as Lg.
  pose proof (real_rows_length thetas i bs) as Lo.
  unfold loss_critic_body. rewrite make_batch_rows by assumption. cbn [rbind].
  rewrite (predict_ok p Hp (stacked_width thetas i bs)). cbn [rbind].
  rewrite wgan_mismatch; [reflexivity| | |];
    rewrite ?labels_length, ?length_map, ?length_app; lia.
Qed.

Lemma drawn_thetas (pp : dict (@vec T)) (n : nat) (rng : RandomState) :
  drawable pp = true ->
  exists thetas r, gaussian_draw pp n rng = Ok (thetas, r) /\
                   length thetas = n /\
                   Forall (fun theta => 2 <= length theta) thetas.
Proof.
  intros Hd. destruct (drawable_inv pp Hd) as (mu & ls & Hmu & Hls & Hl & H2).
  destruct (gaussian_draw_shape pp n rng Hmu Hls Hl) as (thetas & r & E & Ln & HF).
  exists thetas, r. repeat split; auto.
  eapply Forall_impl; [|exact HF]. cbv beta. intros; lia.
Qed.

End LossFacts.

(** * The optimizer keeps shapes *)

Section StructFacts.

Context {T : Type}.

Lemma zip_rows_shape (f : T -> T -> T) (A B : list (list T)) :
  map (@length T) A = map (@length T) B ->
  map (@length T) (zip_with (zip_with f) A B) = map (@length T) A.
Proof.
  revert B. induction A as [|a A IH]; intros [|b B] H; simpl in *;
    try discriminate; [reflexivity|].
  inversion H. f_equal; [now apply zip_with_length | now apply IH].
Qed.

#[export] Instance critic_struct_laws : @ParamStructLaws T (CriticParams T) critic_struct.
Proof.
  split.
  - intros f p. unfold pshape, pmap, critic_struct, critic_shape. simpl.
    rewrite !length_map, !map_map.
    rewrite !(map_ext (fun x => length (map f x)) (@length T))
      by (intros; apply length_map).
    reflexivity.
  - intros f p q H. unfold pshape, pzip, critic_struct, critic_shape in *.
    simpl in *. inversion H as [[H0 H1 H2 H3 H4 H5]].
    rewrite !zip_rows_shape, !zip_with_length by assumption. reflexivity.
Qed.

#[export] Instance dict_struct_laws : @ParamStructLaws T (dict (list T)) dict_struct.
Proof.
  split.
  - intros f d. unfold pshape, pmap, dict_struct, dict_shape.
    rewrite map_map. apply map_ext. intros [k v]. simpl. now rewrite length_map.
  - intros f d. unfold pshape, pzip, dict_struct, dict_shape.
    induction d as [|[k v] d IH]; intros [|[k' v'] e] H; simpl in *;
      try discriminate; [reflexivity|].
    inversion H. f_equal; [|now apply IH].
    f_equal. f_equal. now apply zip_with_length.
Qed.

End StructFacts.

Section AdamFacts.

Context {T : Type} `{ST : Scalar T}.
Context {P : Type} `{PS : ParamStruct T P} {PL : @ParamStructLaws T P PS}.

Lemma adam_init_ok (p : P) (a b c : T) :
  adam_ok (adam_init p a b c) /\ ad_x (adam_init p a b c) = p /\
  ad_i (adam_init p a b c) = 0.
Proof.
  unfold adam_ok, adam_init. simpl. now rewrite !pshape_pmap.
Qed.

Lemma adam_reset_ok (o : Adam T P) :
  adam_ok (adam_reset o) /\ ad_x (adam_reset o) = ad_x o /\
  ad_i (adam_reset o) = 0.
Proof.
  unfold adam_ok, adam_reset. simpl. now rewrite !pshape_pmap.
Qed.

Lemma adam_update_ok (o : Adam T P) (g : P) :
  adam_ok o -> pshape g = pshape (ad_x o) ->
  exists o', adam_update o g = Ok o' /\
             pshape (ad_x o') = pshape (ad_x o) /\ adam_ok o' /\
             ad_i o' = ad_i o + 1.
Proof.
  intros [Hm Hv] Hg. unfold adam_update.
  destruct (shape_eq_dec (pshape g) (pshape (ad_x o))) as [_|n]; [|contradiction].
  eexists. split; [reflexivity|]. unfold adam_ok. cbn [ad_x ad_m ad_v ad_i].
  assert (Em : forall f, pshape (pzip f (ad_m o) g) = pshape (ad_x o)).
  { intros f. rewrite pshape_pzip; congruence. }
  assert (Ev : forall f, pshape (pzip f (ad_v o) g) = pshape (ad_x o)).
  { intros f. rewrite pshape_pzip; congruence. }
  assert (Ex : forall f1 f2 f3 f4 f5 f6,
             pshape (pzip f1 (ad_x o)
                       (pzip f2 (pmap f3 (pzip f4 (ad_m o) g))
                                (pmap f5 (pzip f6 (ad_v o) g)))) = pshape (ad_x o)).
  { intros. rewrite pshape_pzip; [reflexivity|].
    rewrite pshape_pzip; rewrite !pshape_pmap; [now rewrite Em|].
    now rewrite Em, Ev. }
  repeat split; auto; rewrite ?Ex, ?Em, ?Ev; reflexivity.
Qed.

End AdamFacts.

(** * Running the script *)

Section RunFacts.

Context {T : Type} `{ST : Scalar T} `{RG : RandomGen T} `{AG : Autograd T}.
Context {RL : @RandomGenLaws T RG} {AL : @AutogradLaws T AG}.

Variable G : Globals (T := T).

Lemma critic_ok_shape nf (p q : CriticParams T) :
  critic_shape p = critic_shape q -> critic_ok nf p = critic_ok nf q.
Proof.
  unfold critic_shape. intros H. inversion H as [[H0 H1 H2 H3 H4 H5]].
  assert (L0 : length (W_0 p) = length (W_0 q))
    by (rewrite <- (length_map (@length T) (W_0 p)), H0; apply length_map).
  assert (L1 : length (W_1 p) = length (W_1 q))
    by (rewrite <- (length_map (@length T) (W_1 p)), H1; apply length_map).
  unfold critic_ok. now rewrite H0, H1, H2, H3, H4, H5, L0, L1.
Qed.

Lemma drawable_shape (d e : dict (@vec T)) :
  dict_shape d = dict_shape e -> drawable d = true -> drawable e = true.
Proof.
  intros Hs Hd. destruct (drawable_inv d Hd) as (mu & ls & Hmu & Hls & Hl & H2).
  destruct (dict_shape_get d e "location" Hs Hmu) as (mu' & Hmu' & Lmu).
  destruct (dict_shape_get d e "log_scale" Hs Hls) as (ls' & Hls' & Lls).
  unfold drawable. rewrite Hmu', Hls'. apply andb_true_iff.
  split; [apply Nat.eqb_eq | apply Nat.leb_le]; lia.
Qed.

(** ** Sequencing *)

Lemma runs_bind {A B} (m : M A) (k : A -> M B) (w : World) tr1 tr2
    (Q1 : A -> World -> Prop) (Q2 : B -> World -> Prop) :
  runs m w tr1 Q1 ->
  (forall a w', Q1 a w' -> runs (k a) w' tr2 Q2) ->
  runs (bind m k) w (tr1 ++ tr2) Q2.
Proof.
  intros (a & w1 & E1 & H1 & HQ1) Hk.
  destruct (Hk a w1 HQ1) as (b & w2 & E2 & H2 & HQ2).
  exists b, w2. split; [|split].
  - unfold bind. now rewrite E1.
  - now rewrite H2, H1, app_assoc.
  - exact HQ2.
Qed.

Lemma runs_weaken {A} (m : M A) (w : World) tr (Q Q' : A -> World -> Prop) :
  runs m w tr Q -> (forall a w', Q a w' -> Q' a w') -> runs m w tr Q'.
Proof. intros (a & w' & E & H & HQ) Himp. exists a, w'. auto. Qed.

Lemma runs_ret {A} (a : A) (w : World) (Q : A -> World -> Prop) :
  Q a w -> runs (ret a) w [] Q.
Proof. intros HQ. exists a, w. now rewrite app_nil_r. Qed.

(** ** The critic loss and its gradient as commands *)

Lemma loss_critic_runs (p : CriticParams T) (i : nat) (lam : T) (bs : nat)
    (w : World) :
  drawable (params_proposal w) = true -> critic_ok 1 p = true ->
  Nat.even bs = true -> bs / 2 <= n_obs ->
  exists l r,
    loss_critic p i lam bs w =
      Done l (set_np_random r (set_history (history w ++ [EvLossCritic bs i]) w)).
Proof.
  intros Hd Hp He Hk. unfold loss_critic. rewrite bind_emit, bind_read.
  cbn [params_proposal set_history].
  destruct (drawn_thetas (params_proposal w) (bs / 2) (np_random w) Hd)
    as (thetas & r & Eg & Ln & HF).
  erewrite bind_done.
  2:{ unfold with_global. cbn [np_random set_history]. rewrite Eg. reflexivity. }
  destruct (loss_body_ok p i lam bs Ln HF Hp He Hk) as (Gr & _ & _ & El).
  rewrite El. eexists _, r. reflexivity.
Qed.

Lemma grad_loss_critic_runs (p : CriticParams T) (i : nat) (w : World) :
  globals_ok G ->
  drawable (params_proposal w) = true -> critic_ok 1 p = true ->
  exists g r,
    grad_loss_critic G p i w =
      Done g (set_np_random r
                (set_history (history w ++ [EvLossCritic (batch_size G) i]) w)) /\
    critic_shape g = critic_shape p.
Proof.
  intros (He & _ & Hk) Hd Hp. unfold grad_loss_critic.
  rewrite bind_emit, bind_read. cbn [params_proposal set_history].
  destruct (drawn_thetas (params_proposal w) (batch_size G / 2) (np_random w) Hd)
    as (thetas & r & Eg & Ln & HF).
  erewrite bind_done.
  2:{ unfold with_global. cbn [np_random set_history]. rewrite Eg. reflexivity. }
  destruct (loss_body_ok p i (lambda_gp G) (batch_size G) Ln HF Hp He Hk) as (Gr & _ & _ & El).
  destruct (ag_grad_ok (fun q => loss_critic_body thetas q i (lambda_gp G) (batch_size G))
              p El) as (g & Egr & Sg).
  rewrite Egr. exists g, r. split; [reflexivity | exact Sg].
Qed.

(** ** The optimizers' methods *)

Ltac open_world H :=
  destruct H as (Hpc & Hpp & oc & op & Eoc & Eop & Soc & Sop & Aoc & Aop & Ic & Ip).

Lemma critic_iter_runs (ci pi : nat) (w : World) :
  globals_ok G -> world_ok ci pi w ->
  runs (opt_iter Critic opt_critic set_opt_critic (grad_loss_critic G)) w
       [EvIter Critic ci; EvLossCritic (batch_size G) ci]
       (fun _ w' => world_ok (S ci) pi w' /\ loss_d w' = loss_d w).
Proof.
  intros HG Hw. open_world Hw. unfold opt_iter, the_opt.
  assert (Hx : critic_ok 1 (ad_x oc) = true)
    by (rewrite (critic_ok_shape 1 Soc); exact Hpc).
  destruct (grad_loss_critic_runs (ad_x oc) (ad_i oc)
              (set_history (history w ++ [EvIter Critic (ad_i oc)]) w) HG Hpp Hx)
    as (g & r & Eg & Sg).
  destruct (adam_update_ok g Aoc Sg) as (oc' & Eu & Sx & Ax & Ix).
  eexists tt, _. split; [|split].
  - unfold bind at 1. rewrite Eoc. rewrite bind_emit.
    erewrite bind_done by exact Eg. rewrite Eu, bind_lift_ok. reflexivity.
  - cbn [history set_opt_critic set_np_random set_history].
    rewrite <- app_assoc. subst ci. reflexivity.
  - split; [|reflexivity].
    cbn [set_opt_critic set_np_random set_history]. unfold world_ok.
    cbn [params_critic params_proposal opt_critic opt_proposal].
    split; [exact Hpc|]. split; [exact Hpp|]. exists oc', op.
    split; [reflexivity|]. split; [exact Eop|].
    split; [exact (eq_trans Sx Soc)|]. split; [exact Sop|].
    split; [exact Ax|]. split; [exact Aop|]. split; [lia | exact Ip].
Qed.


Lemma critic_iters_S (bs from n : nat) :
  critic_iters bs from (S n) =
  [EvIter Critic from; EvLossCritic bs from] ++ critic_iters bs (S from) n.
Proof. reflexivity. Qed.

Lemma critic_step_runs (n ci pi : nat) (w : World) :
  globals_ok G -> world_ok ci pi w ->
  runs (critic_step G n) w (critic_iters (batch_size G) ci n)
       (fun _ w' => world_ok (ci + n) pi w' /\ loss_d w' = loss_d w).
Proof.
  intros HG. revert ci w. induction n as [|n IH]; intros ci w Hw.
  - apply runs_ret. rewrite Nat.add_0_r. auto.
  - unfold critic_step, opt_step. cbn [repeatW]. rewrite critic_iters_S.
    eapply runs_bind; [exact (critic_iter_runs HG Hw)|].
    intros _ w1 [Hw1 L1].
    eapply runs_weaken; [exact (IH (S ci) w1 Hw1)|].
    intros _ w2 [Hw2 L2]. split; [|congruence].
    replace (ci + S n) with (S ci + n) by lia. exact Hw2.
Qed.

Lemma critic_move_to_runs (ci pi : nat) (w : World) :
  world_ok ci pi w ->
  runs critic_move_to w [EvMoveTo Critic]
       (fun _ w' => world_ok ci pi w' /\ loss_d w' = loss_d w /\
                    params_proposal w' = params_proposal w /\
                    opt_critic w' = opt_critic w /\
                    opt_proposal w' = opt_proposal w).
Proof.
  intros Hw. open_world Hw. unfold critic_move_to, opt_move_to, the_opt.
  eexists tt, _. split; [|split].
  - unfold bind at 1. rewrite Eoc. rewrite bind_modify. reflexivity.
  - reflexivity.
  - split; [|repeat split; reflexivity]. unfold world_ok.
    cbn [set_history set_params_critic
         params_critic params_proposal opt_critic opt_proposal].
    split; [rewrite (critic_ok_shape 1 Soc); exact Hpc|]. split; [exact Hpp|].
    exists oc, op. repeat split; auto; try apply Aoc; try apply Aop.
Qed.

Lemma critic_reset_runs (ci pi : nat) (w : World) :
  world_ok ci pi w ->
  runs critic_reset w [EvReset Critic]
       (fun _ w' => world_ok 0 pi w' /\ loss_d w' = loss_d w).
Proof.
  intros Hw. open_world Hw. unfold critic_reset, opt_reset, the_opt.
  destruct (adam_reset_ok oc) as (Ar & Xr & Ir).
  eexists tt, _. split; [|split].
  - unfold bind at 1. rewrite Eoc. rewrite bind_modify. reflexivity.
  - reflexivity.
  - split; [|reflexivity]. unfold world_ok.
    cbn [set_history set_opt_critic
         params_critic params_proposal opt_critic opt_proposal].
    split; [exact Hpc|]. split; [exact Hpp|].
    exists (adam_reset oc), op. rewrite Xr.
    repeat split; auto; try apply Ar; try apply Aop.
Qed.

Lemma proposal_step_runs (ci pi : nat) (w : World) :
  globals_ok G -> world_ok ci pi w ->
  runs (proposal_step G 1) w [EvIter Proposal pi; EvApproxGradU pi]
       (fun _ w' => world_ok ci (S pi) w' /\ loss_d w' = loss_d w).
Proof.
  intros (_ & Hm & _) Hw. open_world Hw.
  unfold proposal_step, opt_step. cbn [repeatW]. unfold opt_iter, the_opt.
  assert (Hx : drawable (ad_x op) = true)
    by (eapply drawable_shape; [exact (eq_sym Sop) | exact Hpp]).
  destruct (approx_grad_u_runs G (ad_x op) (ad_i op)
              (set_history (history w ++ [EvIter Proposal (ad_i op)]) w) Hx Hpc Hm)
    as (g & r & Eg & Sg).
  destruct (adam_update_ok g Aop Sg) as (op' & Eu & Sx & Ax & Ix).
  eexists tt, _. split; [|split].
  - unfold bind at 1. unfold bind at 1. rewrite Eop. rewrite bind_emit.
    erewrite bind_done by exact Eg. rewrite Eu, bind_lift_ok. reflexivity.
  - cbn [history set_opt_proposal set_np_random set_history].
    rewrite <- app_assoc. subst pi. reflexivity.
  - split; [|reflexivity].
    cbn [set_opt_proposal set_np_random set_history]. unfold world_ok.
    cbn [params_critic params_proposal opt_critic opt_proposal].
    split; [exact Hpc|]. split; [exact Hpp|]. exists oc, op'.
    split; [exact Eoc|]. split; [reflexivity|].
    split; [exact Soc|]. split; [exact (eq_trans Sx Sop)|].
    split; [exact Aoc|]. split; [exact Ax|]. split; [exact Ic | lia].
Qed.

Lemma proposal_move_to_runs (ci pi : nat) (w : World) :
  world_ok ci pi w ->
  runs proposal_move_to w [EvMoveTo Proposal]
       (fun _ w' => world_ok ci pi w' /\ loss_d w' = loss_d w).
Proof.
  intros Hw. open_world Hw. unfold proposal_move_to, opt_move_to, the_opt.
  eexists tt, _. split; [|split].
  - unfold bind at 1. rewrite Eop. rewrite bind_modify. reflexivity.
  - reflexivity.
  - split; [|reflexivity]. unfold world_ok.
    cbn [set_history set_params_proposal
         params_critic params_proposal opt_critic opt_proposal].
    split; [exact Hpc|].
    split; [eapply drawable_shape; [exact (eq_sym Sop) | exact Hpp]|].
    exists oc, op. repeat split; auto; try apply Aoc; try apply Aop.
Qed.


Lemma world_ok_frame (ci pi : nat) (w w' : World) :
  params_critic w' = params_critic w ->
  params_proposal w' = params_proposal w ->
  opt_critic w' = opt_critic w ->
  opt_proposal w' = opt_proposal w ->
  world_ok ci pi w -> world_ok ci pi w'.
Proof.
  intros E1 E2 E3 E4 Hw. unfold world_ok in *. now rewrite E1, E2, E3, E4.
Qed.

Lemma runs_trace {A} (m : M A) (w : World) tr tr' (Q : A -> World -> Prop) :
  tr = tr' -> runs m w tr Q -> runs m w tr' Q.
Proof. now intros ->. Qed.

Lemma even_5000 : Nat.even 5000 = true.
Proof. reflexivity. Qed.

Lemma half_5000 : 5000 / 2 <= n_obs.
Proof.
  replace (5000 / 2) with 2500 by reflexivity. unfold n_obs. lia.
Qed.

Lemma record_diagnostic_runs (i ci pi : nat) (w : World) :
  world_ok ci pi w ->
  runs (record_diagnostic G i) w [EvLossCritic 5000 i; EvRecord i]
       (fun _ w' =>
          world_ok ci pi w' /\
          params_critic w' = params_critic w /\
          params_proposal w' = params_proposal w /\
          opt_critic w' = opt_critic w /\
          opt_proposal w' = opt_proposal w /\
          exists l w1,
            loss_critic (params_critic w) i (lambda_gp G) 5000 w = Done l w1 /\
            loss_d w' = loss_d w ++ [sopp l]).
Proof.
  intros Hw. pose proof Hw as Hw0. open_world Hw.
  destruct (loss_critic_runs (params_critic w) i (lambda_gp G) 5000 w Hpp Hpc
              even_5000 half_5000) as (l & r & El).
  unfold record_diagnostic. eexists tt, _. split; [|split].
  - rewrite bind_read. erewrite bind_done by exact El.
    rewrite bind_modify. reflexivity.
  - cbn [history set_history set_loss_d set_np_random].
    now rewrite <- app_assoc.
  - split; [eapply world_ok_frame; [| | | |exact Hw0]; reflexivity|].
    repeat split. exists l. eexists. split; [exact El | reflexivity].
Qed.

Lemma simulate_all (thetas : @matrix T) :
  Forall (fun theta => 2 <= length theta) thetas ->
  forall w : World,
    exists r,
      forW thetas (fun theta => _ <~ with_global (simulator theta 1) ;; ret tt) w =
        Done tt (set_np_random r w).
Proof.
  intros HF. induction HF as [|theta thetas Ht HF IH]; intros w.
  - exists (np_random w). destruct w. reflexivity.
  - cbn [forW]. unfold bind at 1. unfold bind at 1.
    rewrite (with_global_simulator theta w Ht). unfold ret at 1.
    destruct (IH (set_np_random
                    (snd (rs_norm (nth 0 theta s0) (sexp (nth 1 theta s0))
                            (np_random w))) w)) as (r & E).
    exists r. rewrite E. reflexivity.
Qed.

Lemma plot_runs (i ci pi : nat) (w : World) :
  world_ok ci pi w ->
  runs (plot G i) w (if make_plots G then [EvPlot i] else [])
       (fun _ w' => world_ok ci pi w' /\ loss_d w' = loss_d w).
Proof.
  intros Hw. pose proof Hw as Hw0. open_world Hw. unfold plot.
  destruct (make_plots G).
  - destruct (drawn_thetas (params_proposal w) (Z.to_nat 20000) (np_random w) Hpp)
      as (thetas & r & Eg & _ & HF).
    destruct (simulate_all HF
                (set_np_random r (set_history (history w ++ [EvPlot i]) w)))
      as (r' & Es).
    eexists tt, _. split; [|split].
    + rewrite bind_emit, bind_read. erewrite bind_done.
      2:{ unfold with_global. cbn [np_random set_history params_proposal].
          rewrite Eg. reflexivity. }
      exact Es.
    + reflexivity.
    + split; [eapply world_ok_frame; [| | | |exact Hw0]; reflexivity | reflexivity].
  - apply runs_ret. auto.
Qed.

Lemma fit_runs (ci pi : nat) (w : World) :
  globals_ok G -> world_ok ci pi w ->
  runs (fit G) w
       ([EvIter Proposal pi; EvApproxGradU pi; EvMoveTo Proposal; EvReset Critic]
        ++ critic_iters (batch_size G) 0 100 ++ [EvMoveTo Critic])
       (fun _ w' => world_ok 100 (S pi) w' /\ loss_d w' = loss_d w).
Proof.
  intros HG Hw. unfold fit.
  eapply runs_trace;
    [|eapply runs_bind; [exact (proposal_step_runs HG Hw)|]].
  2:{ intros _ w1 [Hw1 L1].
      eapply runs_bind; [exact (proposal_move_to_runs Hw1)|].
      intros _ w2 [Hw2 L2].
      eapply runs_bind; [exact (critic_reset_runs Hw2)|].
      intros _ w3 [Hw3 L3].
      eapply runs_bind; [exact (critic_step_runs 100 HG Hw3)|].
      intros _ w4 [Hw4 L4].
      eapply runs_weaken; [exact (critic_move_to_runs Hw4)|].
      intros _ w5 (Hw5 & L5 & _). split; [exact Hw5 | congruence]. }
  cbn [app]. reflexivity.
Qed.

Lemma epoch_runs (e ci : nat) (w : World) :
  globals_ok G -> world_ok ci e w ->
  runs (epoch G e) w (epoch_trace G e)
       (fun _ w' => world_ok 100 (S e) w' /\
                    exists x, loss_d w' = loss_d w ++ [x]).
Proof.
  intros HG Hw. unfold epoch.
  eapply runs_trace;
    [|eapply runs_bind; [exact (fit_runs HG Hw)|]].
  2:{ intros _ w1 [Hw1 L1].
      eapply runs_bind; [exact (record_diagnostic_runs e Hw1)|].
      intros _ w2 (Hw2 & _ & _ & _ & _ & l & wl & _ & L2).
      eapply runs_weaken; [exact (plot_runs e Hw2)|].
      intros _ w3 [Hw3 L3]. split; [exact Hw3|].
      exists (sopp l). congruence. }
  unfold epoch_trace. rewrite <- !app_assoc. reflexivity.
Qed.

Lemma epochs_run (n e ci : nat) (w : World) :
  globals_ok G -> world_ok ci e w ->
  runs (forW (seq e n) (epoch G)) w (flat_map (epoch_trace G) (seq e n))
       (fun _ w' => (exists ci', world_ok ci' (e + n) w') /\
                    length (loss_d w') = length (loss_d w) + n).
Proof.
  intros HG. revert e ci w. induction n as [|n IH]; intros e ci w Hw.
  - apply runs_ret. rewrite !Nat.add_0_r. eauto.
  - cbn [seq forW flat_map].
    eapply runs_bind; [exact (epoch_runs HG Hw)|].
    intros _ w1 (Hw1 & x & L1).
    eapply runs_weaken; [exact (IH (S e) 100 w1 Hw1)|].
    intros _ w2 ((ci' & Hw2) & L2). split.
    + exists ci'. replace (e + S n) with (S e + n) by lia. exact Hw2.
    + rewrite L2, L1, length_app. simpl. lia.
Qed.

Lemma training_loop_runs (w : World) :
  globals_ok G -> world_ok 0 0 w ->
  runs (training_loop G) w (training_trace G)
       (fun _ w' => (exists ci', world_ok ci' (n_epochs G) w') /\
                    length (loss_d w') = n_epochs G).
Proof.
  intros HG Hw. unfold training_loop.
  eapply runs_trace;
    [|eapply runs_bind; [exact (critic_step_runs 100 HG Hw)|]].
  2:{ intros _ w1 [Hw1 L1].
      eapply runs_bind; [exact (critic_move_to_runs Hw1)|].
      intros _ w2 (Hw2 & _).
      unfold bind at 1. cbn [modify].
      assert (Hw3 : world_ok (0 + 100) 0 (set_loss_d [] w2))
        by (eapply world_ok_frame; [| | | |exact Hw2]; reflexivity).
      eapply runs_weaken; [exact (epochs_run (n_epochs G) HG Hw3)|].
      intros _ w4 (Hw4 & L4). split; [exact Hw4 | exact L4]. }
  unfold training_trace, warmup_trace. rewrite <- !app_assoc. reflexivity.
Qed.

Lemma make_optimizers_runs (w : World) :
  critic_ok 1 (params_critic w) = true ->
  drawable (params_proposal w) = true ->
  runs make_optimizers w [EvCreate Critic; EvCreate Proposal]
       (fun _ w' => world_ok 0 0 w' /\
                    params_critic w' = params_critic w /\
                    params_proposal w' = params_proposal w /\
                    loss_d w' = loss_d w).
Proof.
  intros Hpc Hpp. unfold make_optimizers. eexists tt, _. split; [|split].
  - reflexivity.
  - cbn [history set_history set_opt_critic set_opt_proposal].
    now rewrite <- app_assoc.
  - split; [|repeat split]. unfold world_ok.
    cbn [set_history set_opt_critic set_opt_proposal
         params_critic params_proposal opt_critic opt_proposal].
    split; [exact Hpc|]. split; [exact Hpp|].
    eexists _, _. split; [reflexivity|]. split; [reflexivity|].
    destruct (adam_init_ok (P := CriticParams T) (params_critic w)
                (lit (1 # 100)) (lit (1 # 2)) (lit (1 # 2))) as (A1 & X1 & I1).
    destruct (adam_init_ok (P := dict (@vec T)) (params_proposal w)
                (lit (1 # 100)) (lit (1 # 10)) (lit (1 # 10))) as (A2 & X2 & I2).
    rewrite X1, X2. repeat split; auto; try apply A1; try apply A2.
Qed.

Lemma main_runs (w : World) :
  globals_ok G ->
  critic_ok 1 (params_critic w) = true ->
  drawable (params_proposal w) = true ->
  runs (main G) w ([EvCreate Critic; EvCreate Proposal] ++ training_trace G)
       (fun _ w' => (exists ci', world_ok ci' (n_epochs G) w') /\
                    length (loss_d w') = n_epochs G).
Proof.
  intros HG Hpc Hpp. unfold main.
  eapply runs_bind; [exact (make_optimizers_runs w Hpc Hpp)|].
  intros _ w1 (Hw1 & _). exact (training_loop_runs HG Hw1).
Qed.

End RunFacts.

(** * What each command leaves unchanged *)

Create HintDb frame.
Create HintDb blind.

Section Frame.

Context {T : Type} `{ST : Scalar T} `{RG : RandomGen T} `{AG : Autograd T}.

Variable G : Globals (T := T).

Section Component.

(** A component of the state that neither the history nor the global
    random state is part of. *)
Context {X : Type} (f : World -> X).
Hypothesis f_history : forall h w, f (set_history h w) = f w.
Hypothesis f_random : forall r w, f (set_np_random r w) = f w.

Lemma preserves_bind {A B} (m : M A) (k : A -> M B) :
  preserves f m -> (forall a, preserves f (k a)) -> preserves f (bind m k).
Proof.
  intros Hm Hk w. unfold bind. specialize (Hm w).
  destruct (m w) as [a w'|e w']; simpl in Hm.
  - rewrite (Hk a w'). exact Hm.
  - exact Hm.
Qed.

Lemma preserves_ret {A} (a : A) : preserves f (ret a).
Proof. intros w. reflexivity. Qed.

Lemma preserves_lift {A} (r : res A) : preserves f (lift r).
Proof. intros w. destruct r; reflexivity. Qed.

Lemma preserves_read {A} (g : World -> A) : preserves f (read g).
Proof. intros w. reflexivity. Qed.

Lemma preserves_emit (e : event) : preserves f (emit e).
Proof. intros w. apply f_history. Qed.

Lemma preserves_modify (g : World -> World) :
  (forall w, f (g w) = f w) -> preserves f (modify g).
Proof. intros Hg w. apply Hg. Qed.

Lemma preserves_with_global {A} (d : RandomState -> res (A * RandomState)) :
  preserves f (with_global d).
Proof.
  intros w. unfold with_global. destruct (d (np_random w)) as [[a r]|e]; simpl; auto.
Qed.

Lemma preserves_foldW {A S} (step : S -> A -> M S) (l : list A) :
  (forall s a, preserves f (step s a)) -> forall s, preserves f (foldW step l s).
Proof.
  intros Hs. induction l as [|a l IH]; intros s; cbn [foldW].
  - apply preserves_ret.
  - apply preserves_bind; auto.
Qed.

Lemma preserves_forW {A} (l : list A) (body : A -> M unit) :
  (forall a, preserves f (body a)) -> preserves f (forW l body).
Proof.
  intros Hb. induction l as [|a l IH]; cbn [forW].
  - apply preserves_ret.
  - apply preserves_bind; auto.
Qed.

Lemma preserves_repeatW (n : nat) (m : M unit) :
  preserves f m -> preserves f (repeatW n m).
Proof.
  intros Hm. induction n as [|n IH]; cbn [repeatW].
  - apply preserves_ret.
  - apply preserves_bind; auto.
Qed.

Hint Resolve preserves_ret preserves_lift preserves_read preserves_emit
  preserves_with_global : frame.

Lemma preserves_loss_critic p i lam bs : preserves f (loss_critic p i lam bs).
Proof.
  unfold loss_critic. repeat (apply preserves_bind; [auto with frame|intros]).
  auto with frame.
Qed.

Lemma preserves_grad_loss_critic p i : preserves f (grad_loss_critic G p i).
Proof.
  unfold grad_loss_critic. repeat (apply preserves_bind; [auto with frame|intros]).
  auto with frame.
Qed.

Lemma preserves_sampling_body pp gu theta : preserves f (sampling_body pp gu theta).
Proof.
  unfold sampling_body. repeat (apply preserves_bind; [auto with frame|intros]).
  auto with frame.
Qed.

Lemma preserves_approx_grad_u pp i : preserves f (approx_grad_u G pp i).
Proof.
  unfold approx_grad_u, approx_grad_u_gamma.
  apply preserves_bind; [auto with frame|intros].
  apply preserves_bind; [auto with frame|intros].
  apply preserves_bind; [apply preserves_foldW; intros; apply preserves_sampling_body|intros].
  repeat (apply preserves_bind; [auto with frame|intros]).
  auto with frame.
Qed.

Lemma preserves_plot i : preserves f (plot G i).
Proof.
  unfold plot. destruct (make_plots G); [|auto with frame].
  repeat (apply preserves_bind; [auto with frame|intros]).
  apply preserves_forW. intros theta.
  apply preserves_bind; [auto with frame|intros]. auto with frame.
Qed.

Lemma preserves_record_diagnostic i :
  (forall l w, f (set_loss_d l w) = f w) ->
  preserves f (record_diagnostic G i).
Proof.
  intros f_loss. unfold record_diagnostic.
  apply preserves_bind; [auto with frame|intros].
  apply preserves_bind; [apply preserves_loss_critic|intros].
  apply preserves_bind; [apply preserves_modify; intros; apply f_loss|intros].
  auto with frame.
Qed.

Section Optimizer.

Context {P : Type} `{PS : ParamStruct T P}.
Variable o : which.
Variable get_opt : World -> option (Adam T P).
Variable set_opt : option (Adam T P) -> World -> World.
Variable grad : P -> nat -> M P.

Hypothesis f_set_opt : forall a w, f (set_opt a w) = f w.
Hypothesis f_grad : forall p i, preserves f (grad p i).

Lemma preserves_the_opt : preserves f (the_opt get_opt).
Proof. intros w. unfold the_opt. destruct (get_opt w); reflexivity. Qed.

Lemma preserves_opt_step n : preserves f (opt_step o get_opt set_opt grad n).
Proof.
  unfold opt_step. apply preserves_repeatW. unfold opt_iter.
  apply preserves_bind; [apply preserves_the_opt|intros].
  repeat (apply preserves_bind; [auto with frame|intros]).
  apply preserves_modify. intros; apply f_set_opt.
Qed.

Lemma preserves_opt_reset : preserves f (opt_reset o get_opt set_opt).
Proof.
  unfold opt_reset. apply preserves_bind; [apply preserves_the_opt|intros].
  apply preserves_bind; [apply preserves_modify; intros; apply f_set_opt|intros].
  auto with frame.
Qed.

Lemma preserves_opt_move_to (set_params : P -> World -> World) :
  (forall p w, f (set_params p w) = f w) ->
  preserves f (opt_move_to o get_opt set_params).
Proof.
  intros f_set. unfold opt_move_to.
  apply preserves_bind; [apply preserves_the_opt|intros].
  apply preserves_bind; [apply preserves_modify; intros; apply f_set|intros].
  auto with frame.
Qed.

End Optimizer.

End Component.

(** ** Commands that do not read the loss trace *)

Lemma blind_bind {A B} (m : M A) (k : A -> M B) :
  trace_blind m -> (forall a, trace_blind (k a)) -> trace_blind (bind m k).
Proof.
  intros Hm Hk tr w. destruct (Hm tr w) as [E L]. unfold bind. rewrite E.
  destruct (m w) as [a w'|e w']; simpl in *.
  - destruct (Hk a tr w') as [E' L']. split; [exact E' | congruence].
  - auto.
Qed.

Lemma blind_ret {A} (a : A) : trace_blind (ret a).
Proof. intros tr w. split; reflexivity. Qed.

Lemma blind_lift {A} (r : res A) : trace_blind (lift r).
Proof. intros tr w. destruct r; split; reflexivity. Qed.

Lemma blind_read {A} (g : World -> A) :
  (forall tr w, g (set_loss_d tr w) = g w) -> trace_blind (read g).
Proof. intros Hg tr w. unfold read. rewrite Hg. split; reflexivity. Qed.

Lemma blind_emit (e : event) : trace_blind (emit e).
Proof. intros tr w. split; reflexivity. Qed.

Lemma blind_modify (g : World -> World) :
  (forall tr w, g (set_loss_d tr w) = set_loss_d tr (g w)) ->
  (forall w, loss_d (g w) = loss_d w) ->
  trace_blind (modify g).
Proof. intros Hg Hl tr w. unfold modify. rewrite Hg. split; [reflexivity | apply Hl]. Qed.

Lemma blind_with_global {A} (d : RandomState -> res (A * RandomState)) :
  trace_blind (with_global d).
Proof.
  intros tr w. unfold with_global. cbn [np_random set_loss_d].
  destruct (d (np_random w)) as [[a r]|e]; split; reflexivity.
Qed.

Lemma blind_foldW {A S} (step : S -> A -> M S) (l : list A) :
  (forall s a, trace_blind (step s a)) -> forall s, trace_blind (foldW step l s).
Proof.
  intros Hs. induction l as [|a l IH]; intros s; cbn [foldW].
  - apply blind_ret.
  - apply blind_bind; auto.
Qed.

Lemma blind_repeatW (n : nat) (m : M unit) :
  trace_blind m -> trace_blind (repeatW n m).
Proof.
  intros Hm. induction n as [|n IH]; cbn [repeatW].
  - apply blind_ret.
  - apply blind_bind; auto.
Qed.

Hint Resolve blind_ret blind_lift blind_emit blind_with_global : blind.

Lemma blind_grad_loss_critic p i : trace_blind (grad_loss_critic G p i).
Proof.
  unfold grad_loss_critic.
  apply blind_bind; [auto with blind|intros].
  apply blind_bind; [apply blind_read; reflexivity|intros].
  apply blind_bind; auto with blind.
Qed.

Lemma blind_approx_grad_u pp i : trace_blind (approx_grad_u G pp i).
Proof.
  unfold approx_grad_u, approx_grad_u_gamma.
  apply blind_bind; [auto with blind|intros].
  apply blind_bind; [auto with blind|intros].
  apply blind_bind.
  - apply blind_foldW. intros gu theta. unfold sampling_body.
    apply blind_bind; [auto with blind|intros].
    apply blind_bind; [apply blind_read; reflexivity|intros].
    repeat (apply blind_bind; [auto with blind|intros]). auto with blind.
  - intros. repeat (apply blind_bind; [auto with blind|intros]). auto with blind.
Qed.

Lemma blind_the_opt {P} (get_opt : World -> option (Adam T P)) :
  (forall tr w, get_opt (set_loss_d tr w) = get_opt w) -> trace_blind (the_opt get_opt).
Proof.
  intros Hg tr w. unfold the_opt. rewrite Hg.
  destruct (get_opt w); split; reflexivity.
Qed.

Lemma blind_critic_step n : trace_blind (critic_step G n).
Proof.
  unfold critic_step, opt_step. apply blind_repeatW. unfold opt_iter.
  apply blind_bind; [apply blind_the_opt; reflexivity|intros].
  apply blind_bind; [auto with blind|intros].
  apply blind_bind; [apply blind_grad_loss_critic|intros].
  apply blind_bind; [auto with blind|intros].
  apply blind_modify; reflexivity.
Qed.

Lemma blind_proposal_step n : trace_blind (proposal_step G n).
Proof.
  unfold proposal_step, opt_step. apply blind_repeatW. unfold opt_iter.
  apply blind_bind; [apply blind_the_opt; reflexivity|intros].
  apply blind_bind; [auto with blind|intros].
  apply blind_bind; [apply blind_approx_grad_u|intros].
  apply blind_bind; [auto with blind|intros].
  apply blind_modify; reflexivity.
Qed.

Lemma blind_critic_move_to : trace_blind critic_move_to.
Proof.
  unfold critic_move_to, opt_move_to.
  apply blind_bind; [apply blind_the_opt; reflexivity|intros].
  apply blind_bind; [apply blind_modify; reflexivity|intros]. auto with blind.
Qed.

Lemma blind_proposal_move_to : trace_blind proposal_move_to.
Proof.
  unfold proposal_move_to, opt_move_to.
  apply blind_bind; [apply blind_the_opt; reflexivity|intros].
  apply blind_bind; [apply blind_modify; reflexivity|intros]. auto with blind.
Qed.

Lemma blind_critic_reset : trace_blind critic_reset.
Proof.
  unfold critic_reset, opt_reset.
  apply blind_bind; [apply blind_the_opt; reflexivity|intros].
  apply blind_bind; [apply blind_modify; reflexivity|intros]. auto with blind.
Qed.

Lemma blind_fit : trace_blind (fit G).
Proof.
  unfold fit.
  apply blind_bind; [apply blind_proposal_step|intros].
  apply blind_bind; [apply blind_proposal_move_to|intros].
  apply blind_bind; [apply blind_critic_reset|intros].
  apply blind_bind; [apply blind_critic_step|intros].
  apply blind_critic_move_to.
Qed.

End Frame.

(** * Batch sizes that make the critic loss raise *)

Section Raising.

Context {T : Type} `{ST : Scalar T} `{RG : RandomGen T} `{AG : Autograd T}.
Context {RL : @RandomGenLaws T RG} {AL : @AutogradLaws T AG}.

Variable G : Globals (T := T).

Lemma odd_unbalanced (bs : nat) : Nat.odd bs = true -> 3 <= bs -> unbalanced bs.
Proof.
  intros Ho H3. apply Nat.odd_spec in Ho. destruct Ho as [k ->].
  unfold unbalanced.
  replace ((2 * k + 1) / 2) with k
    by (apply (Nat.div_unique (2 * k + 1) 2 k 1); lia).
  pose proof n_obs_pos. lia.
Qed.

Lemma large_unbalanced (bs : nat) : n_obs < bs / 2 -> unbalanced bs.
Proof.
  intros Hl. pose proof n_obs_pos.
  pose proof (Nat.Div0.mul_div_le bs 2). unfold unbalanced. lia.
Qed.

Lemma loss_critic_mismatch (p : CriticParams T) (i : nat) (lam : T) (bs : nat)
    (w : World) :
  drawable (params_proposal w) = true -> critic_ok 1 p = true ->
  unbalanced bs ->
  exists r,
    loss_critic p i lam bs w =
      Abort shape_error
        (set_np_random r (set_history (history w ++ [EvLossCritic bs i]) w)).
Proof.
  intros Hd Hp (U1 & U2 & U3). unfold loss_critic. rewrite bind_emit, bind_read.
  cbn [params_proposal set_history].
  destruct (drawn_thetas (params_proposal w) (bs / 2) (np_random w) Hd)
    as (thetas & r & Eg & Ln & HF).
  erewrite bind_done.
  2:{ unfold with_global. cbn [np_random set_history]. rewrite Eg. reflexivity. }
  rewrite (loss_body_mismatch p i lam Ln HF Hp U1 U2 U3).
  exists r. reflexivity.
Qed.

Lemma grad_loss_critic_mismatch (p : CriticParams T) (i : nat) (w : World) :
  drawable (params_proposal w) = true -> critic_ok 1 p = true ->
  unbalanced (batch_size G) ->
  exists r,
    grad_loss_critic G p i w =
      Abort shape_error
        (set_np_random r
           (set_history (history w ++ [EvLossCritic (batch_size G) i]) w)).
Proof.
  intros Hd Hp (U1 & U2 & U3). unfold grad_loss_critic.
  rewrite bind_emit, bind_read. cbn [params_proposal set_history].
  destruct (drawn_thetas (params_proposal w) (batch_size G / 2) (np_random w) Hd)
    as (thetas & r & Eg & Ln & HF).
  erewrite bind_done.
  2:{ unfold with_global. cbn [np_random set_history]. rewrite Eg. reflexivity. }
  rewrite (ag_grad_raise
             (fun q => loss_critic_body thetas q i (lambda_gp G) (batch_size G)) p
             (loss_body_mismatch p i (lambda_gp G) Ln HF Hp U1 U2 U3)).
  exists r. reflexivity.
Qed.


End Raising.

(** * The properties of the specification *)

Section Claims.

Context {T : Type} `{ST : Scalar T} `{RG : RandomGen T} `{AG : Autograd T}.
Context {SL : @ScalarLaws T ST} {RL : @RandomGenLaws T RG} {AL : @AutogradLaws T AG}.

Variable G : Globals (T := T).

Lemma vsum_zeros (n : nat) : vsum (repeat (@s0 T _) n) = s0.
Proof.
  unfold vsum. induction n as [|n IH]; simpl; [reflexivity|].
  now rewrite sadd_0_r.
Qed.

Lemma penalty_unit (norms : @vec T) :
  norms <> [] -> Forall (fun n => n = s1) norms ->
  mean (map (fun n => sq (ssub n s1)) norms) = s0.
Proof.
  intros Hne HF.
  assert (E : map (fun n => sq (ssub n s1)) norms = repeat s0 (length norms)).
  { induction HF as [|n norms -> HF IH]; simpl; [reflexivity|].
    unfold sq at 1. rewrite ssub_diag, smul_0_r. f_equal.
    destruct norms; [reflexivity|]. apply IH. discriminate. }
  unfold mean. rewrite E, vsum_zeros, repeat_length.
  apply sdiv_0_l. destruct norms; [contradiction | discriminate].
Qed.

(** C8.  When the critic's gradient with respect to its input has
    Euclidean norm exactly 1 at every row of the interpolated batch of a
    call of [loss_critic], and that batch has a row, the gradient penalty
    of the call is 0 and, whatever [lambda_gp] is, the loss returned is its
    Wasserstein term. *)
Theorem unit_gradient_no_penalty (thetas : @matrix T) (p : CriticParams T)
    (i : nat) (lam : T) (bs : nat) (X_gen X_o : @matrix T) (rng : RandomState)
    (y_pred : @vec T) (l_wgan : T) (X_hat G_x : @matrix T) :
  make_batch thetas i bs = Ok (X_gen, X_o, rng) ->
  predict (X_gen ++ X_o) p = Ok y_pred ->
  wgan (labels bs) y_pred = Ok l_wgan ->
  interpolate X_gen X_o rng bs = Ok X_hat ->
  ag_elementwise_grad (fun X => predict X p) X_hat = Ok G_x ->
  G_x <> [] ->
  Forall (fun n => n = s1) (row_norms G_x) ->
  gradient_penalty X_hat p = Ok s0 /\
  loss_critic_body thetas p i lam bs = Ok l_wgan.
Proof.
  intros Eb Ep Ew Ei Eg Hne Hn.
  assert (Egp : gradient_penalty X_hat p = Ok s0).
  { unfold gradient_penalty. rewrite Eg. cbn [rbind]. f_equal.
    apply penalty_unit; [|exact Hn].
    unfold row_norms. destruct G_x; [contradiction | discriminate]. }
  split; [exact Egp|].
  unfold loss_critic_body. rewrite Eb. cbn [rbind]. rewrite Ep. cbn [rbind].
  rewrite Ew. cbn [rbind]. rewrite Ei. cbn [rbind]. rewrite Egp. cbn [rbind].
  now rewrite smul_0_r, sadd_0_r.
Qed.

(** C2, as amended.  For every even [batch_size] whose half does not
    exceed the number of observed rows, [loss_critic] returns the
    Wasserstein term [mean(-label*score + (1-label)*score)] over
    [batch_size // 2] generated rows with label 0 and [batch_size // 2]
    observed rows with label 1, plus [lambda_gp] times the mean of
    [(norm - 1)^2] over the rows of the critic's gradient at
    [x_hat = eps * x_real + (1 - eps) * x_gen], with one coefficient [eps]
    drawn for each pair. *)
Theorem loss_critic_value (p : CriticParams T) (i : nat) (lam : T) (bs : nat)
    (w : World) :
  drawable (params_proposal w) = true -> critic_ok 1 p = true ->
  Nat.even bs = true -> bs / 2 <= n_obs ->
  exists thetas r G_x,
    gaussian_draw (params_proposal w) (bs / 2) (np_random w) = Ok (thetas, r) /\
    length (gen_rows thetas i) = bs / 2 /\
    length (real_rows thetas i bs) = bs / 2 /\
    length (coefficients thetas i bs) = bs / 2 /\
    ag_elementwise_grad (fun X => predict X p)
      (interpolation (coefficients thetas i bs) (real_rows thetas i bs)
                     (gen_rows thetas i)) = Ok G_x /\
    loss_critic p i lam bs w =
      Done (sadd (wasserstein
                    (combine (repeat s0 (bs / 2)) (map (score p) (gen_rows thetas i))
                     ++ combine (repeat s1 (bs / 2))
                                (map (score p) (real_rows thetas i bs))))
                 (smul lam (penalty G_x)))
           (mkWorld (params_critic w) (params_proposal w) (opt_critic w)
                    (opt_proposal w) (loss_d w) r
                    (history w ++ [EvLossCritic bs i])).
Proof.
  intros Hd Hp He Hk.
  destruct (drawn_thetas (params_proposal w) (bs / 2) (np_random w) Hd)
    as (thetas & r & Eg & Ln & HF).
  destruct (loss_body_ok p i lam bs Ln HF Hp He Hk) as (G_x & EG & LG & El).
  exists thetas, r, G_x. split; [exact Eg|].
  split; [now rewrite gen_rows_length|].
  split; [rewrite real_rows_length; lia|].
  split; [unfold coefficients; apply draws_length|].
  split; [exact EG|].
  unfold loss_critic. rewrite bind_emit, bind_read.
  cbn [params_proposal set_history].
  erewrite bind_done.
  2:{ unfold with_global. cbn [np_random set_history]. rewrite Eg. reflexivity. }
  rewrite El. reflexivity.
Qed.


(** C3.  With an even, non-zero batch size whose half fits in [X_obs],
    and well-formed initial parameters, the script returns after this
    sequence and no other: both optimizers are constructed; 100 critic
    iterations and a critic commit; then, for each of [n_epochs] passes in
    order, one proposal iteration, a proposal commit, a reset of the
    critic optimizer, 100 critic iterations, a critic commit and one
    diagnostic recording (followed by the draws of the plot, when plots
    are made).  One value has been recorded for each pass. *)
Theorem training_sequence (w : World) :
  globals_ok G ->
  critic_ok 1 (params_critic w) = true ->
  drawable (params_proposal w) = true ->
  exists w',
    main G w = Done tt w' /\
    history w' =
      history w ++ [EvCreate Critic; EvCreate Proposal] ++ training_trace G /\
    length (loss_d w') = n_epochs G.
Proof.
  intros HG Hpc Hpp.
  destruct (main_runs w HG Hpc Hpp) as ([] & w' & E & H & _ & L).
  exists w'. auto.
Qed.


(** C6.  [predict], [loss_critic], its gradient, [approx_grad_u], the
    diagnostic recording, the plot, the construction of the optimizers,
    their steps and the reset leave both parameter structures as they
    found them, whether they return or raise; the critic's commit leaves
    the proposal's parameters and the proposal's commit leaves the
    critic's; each commit writes the trial parameters of its optimizer
    into its own structure. *)
Theorem parameters_written_by_commit_only :
  let both := fun w : World => (params_critic w, params_proposal w) in
  (forall X p, preserves both (lift (predict X p))) /\
  (forall p i lam bs, preserves both (loss_critic p i lam bs)) /\
  (forall p i, preserves both (grad_loss_critic G p i)) /\
  (forall pp i, preserves both (approx_grad_u G pp i)) /\
  (forall i, preserves both (record_diagnostic G i)) /\
  (forall i, preserves both (plot G i)) /\
  preserves both make_optimizers /\
  (forall n, preserves both (critic_step G n)) /\
  (forall n, preserves both (proposal_step G n)) /\
  preserves both critic_reset /\
  preserves params_proposal critic_move_to /\
  preserves params_critic proposal_move_to /\
  (forall w a, opt_critic w = Some a ->
     params_critic (world_of (critic_move_to w)) = ad_x a) /\
  (forall w a, opt_proposal w = Some a ->
     params_proposal (world_of (proposal_move_to w)) = ad_x a).
Proof.
  intros both.
  assert (Hh : forall h w, both (set_history h w) = both w) by reflexivity.
  assert (Hr : forall r w, both (set_np_random r w) = both w) by reflexivity.
  refine (conj _ (conj _ (conj _ (conj _ (conj _ (conj _ (conj _ (conj _
         (conj _ (conj _ (conj _ (conj _ (conj _ _))))))))))))).
  - intros. now apply preserves_lift.
  - intros. now apply preserves_loss_critic.
  - intros. now apply preserves_grad_loss_critic.
  - intros. now apply preserves_approx_grad_u.
  - intros. now apply preserves_record_diagnostic.
  - intros. now apply preserves_plot.
  - intros w. reflexivity.
  - intros. apply preserves_opt_step; auto.
    intros. now apply preserves_grad_loss_critic.
  - intros. apply preserves_opt_step; auto.
    intros. now apply preserves_approx_grad_u.
  - apply preserves_opt_reset; auto.
  - apply preserves_opt_move_to; auto.
  - apply preserves_opt_move_to; auto.
  - intros w a E. unfold critic_move_to, opt_move_to, bind, the_opt.
    rewrite E. reflexivity.
  - intros w a E. unfold proposal_move_to, opt_move_to, bind, the_opt.
    rewrite E. reflexivity.
Qed.

(** C7.  One pass of the loop appends exactly one value to [loss_d]: the
    opposite of the critic loss evaluated with a batch size of 5000 on the
    parameters committed in that pass.  The fitting part of the pass
    leaves [loss_d] alone, and so does the warmup; they do not read it
    either: started with any other trace they do the same.  The diagnostic
    recording leaves both optimizers and both parameter structures
    unchanged. *)
Theorem diagnostic_recorded (e ci : nat) (w : World) :
  globals_ok G -> world_ok ci e w ->
  (exists w1 l w2 w',
     fit G w = Done tt w1 /\ loss_d w1 = loss_d w /\
     loss_critic (params_critic w1) e (lambda_gp G) 5000 w1 = Done l w2 /\
     epoch G e w = Done tt w' /\
     loss_d w' = loss_d w ++ [sopp l] /\
     params_critic w' = params_critic w1 /\
     params_proposal w' = params_proposal w1 /\
     opt_critic w' = opt_critic w1 /\
     opt_proposal w' = opt_proposal w1) /\
  (forall i,
     preserves (fun w => (params_critic w, params_proposal w,
                          opt_critic w, opt_proposal w))
               (record_diagnostic G i)) /\
  trace_blind (fit G) /\
  (forall n, trace_blind (critic_step G n)) /\
  trace_blind critic_move_to.
Proof.
  intros HG Hw. split; [|split; [|split; [|split]]].
  - destruct (fit_runs HG Hw) as ([] & w1 & E1 & _ & Hw1 & L1).
    destruct (record_diagnostic_runs G e Hw1)
      as ([] & w2 & E2 & _ & Hw2 & P1 & P2 & P3 & P4 & l & wl & El & L2).
    destruct (plot_runs G e Hw2) as ([] & w3 & E3 & _ & Hw3 & L3).
    exists w1, l, wl, w3. split; [exact E1|]. split; [exact L1|].
    split; [exact El|]. split.
    { unfold epoch. erewrite bind_done by exact E1.
      erewrite bind_done by exact E2. exact E3. }
    split; [congruence|].
    pose proof (preserves_plot G
                  (fun w => (params_critic w, params_proposal w,
                             opt_critic w, opt_proposal w))
                  (fun _ _ => eq_refl) (fun _ _ => eq_refl) e w2) as Hp.
    rewrite E3 in Hp. cbn [world_of] in Hp. inversion Hp.
    repeat split; congruence.
  - intros i. now apply preserves_record_diagnostic.
  - apply blind_fit.
  - apply blind_critic_step.
  - apply blind_critic_move_to.
Qed.

End Claims.

(** * The concrete instance satisfies the laws *)

Module ExampleLaws.

Import Example.

#[export] Instance Qc_laws : @ScalarLaws Qc Qc_scalar.
Proof.
  split; simpl; intros.
  - ring.
  - ring.
  - ring.
  - ring.
  - unfold Qcdiv. ring.
Qed.

#[export] Instance toy_random_laws : @RandomGenLaws Qc toy_random.
Proof.
  split. intros n s. simpl. unfold rotate.
  rewrite Permutation_app_comm. now rewrite firstn_skipn.
Qed.

#[export] Instance unit_autograd_laws : @AutogradLaws Qc unit_autograd.
Proof.
  split; simpl.
  - intros f X y E. rewrite E. simpl. eexists. split; [reflexivity|].
    rewrite map_map. apply map_ext. intros. apply length_map.
  - intros f X e E. now rewrite E.
  - intros f p y E. rewrite E. simpl. eexists. split; [reflexivity|].
    exact (@pshape_pmap Qc (CriticParams Qc) critic_struct critic_struct_laws
             (fun _ => Q2Qc 1) p).
  - intros f p e E. now rewrite E.
Qed.

End ExampleLaws.

(** * The properties at concrete inputs *)

Module Runs.

Import Example ExampleLaws.

Lemma source_globals_ok : globals_ok (@source_globals Qc _).
Proof.
  unfold globals_ok. cbn [batch_size source_globals].
  split; [reflexivity|]. split; [discriminate|].
  replace (64 / 2) with 32 by reflexivity. unfold n_obs. lia.
Qed.

Lemma world1_ok (seed : Z) : world_ok 0 0 (world1 seed).
Proof.
  unfold world_ok, world1.
  cbn [params_critic params_proposal opt_critic opt_proposal].
  split; [reflexivity|]. split; [reflexivity|].
  eexists _, _. split; [reflexivity|]. split; [reflexivity|].
  repeat split; reflexivity.
Qed.

(** C1 at the script's constants. *)
Lemma approx_grad_u_estimator_witness :
  (length [Q2Qc 0; Q2Qc 0] = length [Q2Qc 0; Q2Qc 0] /\
   2 <= length [Q2Qc 0; Q2Qc 0] /\
   critic_ok 1 (params_critic (world0 5)) = true /\
   batch_size (@source_globals Qc _) <> 0) /\
  exists g w',
    approx_grad_u_gamma source_globals proposal0 0 (lit 5) (world0 5) = Done g w'.
Proof.
  assert (H1 : length [Q2Qc 0; Q2Qc 0] = length [Q2Qc 0; Q2Qc 0]) by reflexivity.
  assert (H2 : 2 <= length [Q2Qc 0; Q2Qc 0]) by (simpl; lia).
  assert (H3 : critic_ok 1 (params_critic (world0 5)) = true) by reflexivity.
  assert (H4 : batch_size (@source_globals Qc _) <> 0) by (simpl; lia).
  split; [auto|].
  destruct (approx_grad_u_estimator source_globals [Q2Qc 0; Q2Qc 0] [Q2Qc 0; Q2Qc 0]
              0 (lit 5) (world0 5) H1 H2 H3 H4)
    as (thetas & r & _ & _ & _ & E).
  eexists _, _. exact E.
Defined.

(** C10 at the script's constants. *)
Lemma approx_grad_u_shape_witness :
  (drawable proposal0 = true /\
   critic_ok 1 (params_critic (world0 5)) = true /\
   batch_size (@source_globals Qc _) <> 0) /\
  exists g w',
    approx_grad_u source_globals proposal0 0 (world0 5) = Done g w' /\
    keys g = keys proposal0.
Proof.
  assert (H1 : drawable proposal0 = true) by reflexivity.
  assert (H2 : critic_ok 1 (params_critic (world0 5)) = true) by reflexivity.
  assert (H3 : batch_size (@source_globals Qc _) <> 0) by (simpl; lia).
  split; [auto|].
  destruct (approx_grad_u_shape source_globals proposal0 0 (world0 5) H1 H2 H3)
    as (g & w' & E & K & _).
  exists g, w'. auto.
Defined.

(** C3 at the script's constants. *)
Lemma training_sequence_witness :
  (globals_ok (@source_globals Qc _) /\
   critic_ok 1 (params_critic (world0 5)) = true /\
   drawable (params_proposal (world0 5)) = true) /\
  exists w',
    main source_globals (world0 5) = Done tt w' /\
    length (loss_d w') = n_epochs (@source_globals Qc _).
Proof.
  assert (H2 : critic_ok 1 (params_critic (world0 5)) = true) by reflexivity.
  assert (H3 : drawable (params_proposal (world0 5)) = true) by reflexivity.
  split; [auto using source_globals_ok|].
  destruct (training_sequence (world0 5) source_globals_ok H2 H3)
    as (w' & E & _ & L).
  exists w'. auto.
Defined.

(** C7 at the script's constants, for the first pass. *)
Lemma diagnostic_recorded_witness :
  (globals_ok (@source_globals Qc _) /\ world_ok 0 0 (world1 5)) /\
  exists w' x,
    epoch source_globals 0 (world1 5) = Done tt w' /\
    loss_d w' = loss_d (world1 5) ++ [x].
Proof.
  split; [auto using source_globals_ok, world1_ok|].
  destruct (diagnostic_recorded source_globals_ok (world1_ok 5))
    as ((w1 & l & w2 & w' & _ & _ & _ & E & L & _) & _).
  exists w', (sopp l). auto.
Defined.

(** C2 fails as stated: 40002 is even, and [loss_critic] with this batch
    size raises, because [X_obs] has 20000 rows only. *)
Lemma loss_critic_large_batch_raises :
  Nat.even (Z.to_nat 40002) = true /\
  exists w',
    loss_critic critic0 0 (lit (25 # 1000)) (Z.to_nat 40002) (world0 5) =
      Abort shape_error w'.
Proof.
  split.
  - apply Nat.even_spec. exists (Z.to_nat 20001). lia.
  - destruct (loss_critic_mismatch critic0 0 (lit (25 # 1000))
                (bs := Z.to_nat 40002) (world0 5) eq_refl eq_refl) as (r & E).
    + apply large_unbalanced. unfold n_obs.
      replace (Z.to_nat 40002) with (2 * Z.to_nat 20001) by lia.
      rewrite Nat.mul_comm, Nat.div_mul by lia. lia.
    + eexists. exact E.
Qed.

(** C2, as amended, at the script's batch size. *)
Lemma loss_critic_value_witness :
  (drawable (params_proposal (world0 5)) = true /\ critic_ok 1 critic0 = true /\
   Nat.even 64 = true /\ 64 / 2 <= n_obs) /\
  exists l w', loss_critic critic0 0 (lit (25 # 1000)) 64 (world0 5) = Done l w'.
Proof.
  assert (H1 : drawable (params_proposal (world0 5)) = true) by reflexivity.
  assert (H2 : critic_ok 1 critic0 = true) by reflexivity.
  assert (H3 : Nat.even 64 = true) by reflexivity.
  assert (H4 : 64 / 2 <= n_obs)
    by (replace (64 / 2) with 32 by reflexivity; unfold n_obs; lia).
  split; [auto|].
  destruct (loss_critic_value critic0 0 (lit (25 # 1000)) 64 (world0 5) H1 H2 H3 H4)
    as (thetas & r & G_x & _ & _ & _ & _ & _ & E).
  eexists _, _. exact E.
Defined.





(** C8 with the gradient that is one in every entry: on batches with one
    feature its rows have norm 1. *)
Lemma unit_gradient_no_penalty_witness :
  exists X_gen X_o rng y_pred l_wgan X_hat G_x,
    (make_batch [[Q2Qc 0; Q2Qc 0]] 0 2 = Ok (X_gen, X_o, rng) /\
     predict (X_gen ++ X_o) critic0 = Ok y_pred /\
     wgan (labels 2) y_pred = Ok l_wgan /\
     interpolate X_gen X_o rng 2 = Ok X_hat /\
     ag_elementwise_grad (fun X => predict X critic0) X_hat = Ok G_x /\
     G_x <> [] /\
     Forall (fun n => n = s1) (row_norms G_x)) /\
    loss_critic_body [[Q2Qc 0; Q2Qc 0]] critic0 0 (lit 3) 2 = Ok l_wgan.
Proof.
  set (thetas := [[Q2Qc 0; Q2Qc 0]] : @matrix Qc).
  assert (Ln : length thetas = 2 / 2) by reflexivity.
  assert (HF : Forall (fun theta : list Qc => 2 <= length theta) thetas)
    by (repeat constructor).
  assert (Hc : critic_ok 1 critic0 = true) by reflexivity.
  pose proof (make_batch_rows 0 2 Ln HF) as Eb.
  pose proof (predict_ok critic0 Hc (stacked_width thetas 0 2)) as Ep.
  pose proof (gen_rows_length thetas 0) as Lg.
  change (length thetas) with 1 in Lg.
  pose proof (real_rows_length thetas 0 2) as Lo.
  assert (Hn : Nat.min (2 / 2) n_obs = 1)
    by (replace (2 / 2) with 1 by reflexivity; pose proof n_obs_pos; lia).
  rewrite Hn in Lo.
  assert (Ew : wgan (labels 2)
                 (map (score critic0) (gen_rows thetas 0 ++ real_rows thetas 0 2)) =
               Ok (wasserstein
                     (combine (labels 2)
                        (map (score critic0)
                           (gen_rows thetas 0 ++ real_rows thetas 0 2))))).
  { apply wgan_ok. rewrite labels_length, length_map, length_app, Lg, Lo.
    simpl. lia. }
  pose proof (interpolate_ok
                (snd (rs_permutation n_obs (snd (simulate_each thetas (rs_seed 0)))))
                2 (Xg := gen_rows thetas 0) (Xo := real_rows thetas 0 2)
                ltac:(rewrite Lg; simpl; lia) ltac:(rewrite Lo; simpl; lia)
                (gen_rows_width thetas 0) (real_rows_width thetas 0 2)) as Ei.
  fold (coefficients thetas 0 2) in Ei.
  set (X_hat := interpolation (coefficients thetas 0 2) (real_rows thetas 0 2)
                              (gen_rows thetas 0)) in *.
  assert (WX : Forall (fun r : list Qc => length r = 1) X_hat)
    by (apply interpolation_width; [apply real_rows_width | apply gen_rows_width]).
  assert (LX : length X_hat = 1).
  { assert (Lc : length (coefficients thetas 0 2) = 1)
      by (unfold coefficients; apply draws_length).
    unfold X_hat. rewrite interpolation_length; lia. }
  clearbody X_hat.
  assert (Eg : ag_elementwise_grad (fun X => predict X critic0) X_hat =
               Ok (map (map (fun _ => Q2Qc 1)) X_hat)).
  { cbn [ag_elementwise_grad unit_autograd].
    rewrite (predict_ok critic0 Hc WX). reflexivity. }
  assert (Hne : map (map (fun _ : Qc => Q2Qc 1)) X_hat <> []).
  { destruct X_hat; [discriminate LX | discriminate]. }
  assert (Hu : Forall (fun n : Qc => n = s1)
                      (row_norms (map (map (fun _ => Q2Qc 1)) X_hat))).
  { unfold row_norms. rewrite map_map. apply Forall_forall. intros n Hin.
    apply in_map_iff in Hin. destruct Hin as (row & <- & Hrow).
    rewrite Forall_forall in WX. specialize (WX row Hrow).
    destruct row as [|x [|]]; try discriminate WX. reflexivity. }
  destruct (unit_gradient_no_penalty thetas critic0 0 (lit 3) 2
              Eb Ep Ew Ei Eg Hne Hu) as [_ El].
  eexists _, _, _, _, _, X_hat, _.
  split; [exact (conj Eb (conj Ep (conj Ew (conj Ei (conj Eg (conj Hne Hu))))))
         | exact El].
Defined.

(** The same call from two states of the global generator. *)
Lemma estimates_differ :
  value_of (approx_grad_u source_globals proposal0 0 (world0 5)) <>
  value_of (approx_grad_u source_globals proposal0 0
              (set_np_random (6%Z : RandomState) (world0 5))).
Proof.
  vm_compute. intros H. discriminate H.
Qed.

Lemma estimates_returned :
  returned (approx_grad_u source_globals proposal0 0 (world0 5)) = true /\
  returned (approx_grad_u source_globals proposal0 0
              (set_np_random (6%Z : RandomState) (world0 5))) = true.
Proof.
  split; vm_compute; reflexivity.
Qed.

(** C4.  The estimate [approx_grad_u] returns is not a function of its
    arguments and the seed [i]: started from two states that differ in
    NumPy's global random state only, which the script never seeds, the
    same call on the same parameters with the same [i] returns twice, with
    two different estimates.  The observation of line 113 is drawn from
    the global generator, not from the stream seeded with [i]. *)
Theorem approx_grad_u_depends_on_global_state :
  exists g1 g2 w1 w2,
    approx_grad_u source_globals proposal0 0 (world0 5) = Done g1 w1 /\
    approx_grad_u source_globals proposal0 0 (set_np_random (6%Z : RandomState) (world0 5)) =
      Done g2 w2 /\
    g1 <> g2.
Proof.
  pose proof estimates_differ as Hd.
  pose proof estimates_returned as [D1 D2].
  destruct (approx_grad_u source_globals proposal0 0 (world0 5)) as [g1 w1|];
    [|discriminate D1].
  destruct (approx_grad_u _ _ _ (set_np_random _ _)) as [g2 w2|];
    [|discriminate D2].
  exists g1, g2, w1, w2. split; [reflexivity|]. split; [reflexivity|].
  intros ->. now apply Hd.
Qed.

End Runs.

(** * The simulator, the observed data and the critic's forward pass *)

Section SimulatorFacts.

Context {T : Type} `{ST : Scalar T} `{RG : RandomGen T}.

(** X1.  For a parameter vector with at least two entries, [simulator]
    returns [n_samples] rows of one entry each, with the random state
    advanced; it reads the first two entries of [theta] and nothing else
    of it. *)
Theorem simulator_shape (theta : @vec T) (n : nat) (r : RandomState) :
  2 <= length theta ->
  exists X r',
    simulator theta n r = Ok (X, r') /\
    length X = n /\
    Forall (fun row => length row = 1) X /\
    simulator (firstn 2 theta) n r = Ok (X, r').
Proof.
  intros H2. destruct theta as [|loc [|log_scale rest]]; simpl in H2; try lia.
  unfold simulator. cbn [firstn nth_error of_option rbind].
  pose proof (draws_length (rs_norm loc (sexp log_scale)) n r) as L.
  destruct (draws (rs_norm loc (sexp log_scale)) n r) as [xs r'].
  cbn [fst] in L. exists (map (fun x => [x]) xs), r'.
  split; [reflexivity|]. split; [now rewrite length_map|].
  split; [|reflexivity].
  apply Forall_forall. intros row Hin. apply in_map_iff in Hin.
  destruct Hin as (x & <- & _). reflexivity.
Qed.

(** X2.  With fewer than two entries in [theta], [simulator] raises
    [IndexError] whatever the number of samples asked for, zero
    included. *)
Theorem simulator_short_theta (theta : @vec T) (n : nat) (r : RandomState) :
  length theta < 2 -> simulator theta n r = Raise IndexError.
Proof.
  intros H2. destruct theta as [|loc [|log_scale rest]]; simpl in H2.
  - reflexivity.
  - reflexivity.
  - lia.
Qed.

(** X3.  Whatever the random generator returns, [X_obs] has 20000 rows of
    one entry each, [n_features] is 1 and [n_params] is 2. *)
Theorem observed_data_shape :
  length (@X_obs T _ _) = Z.to_nat 20000 /\
  Forall (fun row => length row = 1) (@X_obs T _ _) /\
  @n_features T _ _ = 1 /\
  @n_params T _ = 2.
Proof.
  split; [exact X_obs_length|].
  split; [exact X_obs_width|].
  split; [exact n_features_one | reflexivity].
Qed.

End SimulatorFacts.

Section PredictFacts.

Context {T : Type} `{ST : Scalar T}.

(** X4.  On a critic whose layers fit inputs with [nf] features, [predict]
    scores a batch row by row: it returns one score for each row, in
    order, and the scores of a stacked batch are the scores of its first
    part followed by the scores of its second part. *)
Theorem predict_rowwise (nf : nat) (p : CriticParams T) (X Y : @matrix T) :
  critic_ok nf p = true ->
  Forall (fun row => length row = nf) X ->
  Forall (fun row => length row = nf) Y ->
  exists sx sy,
    predict X p = Ok sx /\ predict Y p = Ok sy /\
    length sx = length X /\ length sy = length Y /\
    predict (X ++ Y) p = Ok (sx ++ sy).
Proof.
  intros Hp HX HY.
  exists (map (score p) X), (map (score p) Y).
  split; [now apply predict_ok with (nf := nf)|].
  split; [now apply predict_ok with (nf := nf)|].
  split; [apply length_map|]. split; [apply length_map|].
  rewrite <- map_app. apply predict_ok with (nf := nf); [exact Hp|].
  apply Forall_app. now split.
Qed.

Lemma width_mismatch (nf w : nat) (p : CriticParams T) (X : @matrix T) :
  critic_ok nf p = true -> W_0 p <> [] -> X <> [] ->
  Forall (fun row => length row = w) X -> w <> nf ->
  predict X p = Raise (ValueError "shapes not aligned").
Proof.
  intros Hp HW HX Hw Hne.
  destruct (critic_ok_inv nf p Hp) as (H0 & _).
  destruct X as [|row X']; [contradiction|].
  destruct (W_0 p) as [|w0 W] eqn:E0; [contradiction|].
  inversion Hw as [|? ? Lrow _]; subst.
  inversion H0 as [|? ? Lw0 _]; subst.
  unfold predict. rewrite E0. unfold dot_T. cbn [mapM rbind].
  unfold inner at 1.
  replace (length w0 =? length row) with false
    by (symmetry; apply Nat.eqb_neq; congruence).
  reflexivity.
Qed.

(** X5.  On a critic with at least one hidden unit whose first layer takes
    [nf] features, [predict] raises the [ValueError] of [np.dot] for
    every batch that has a row and whose rows have another width. *)
Theorem predict_width_mismatch (nf w : nat) (p : CriticParams T) (X : @matrix T) :
  critic_ok nf p = true -> W_0 p <> [] -> X <> [] ->
  Forall (fun row => length row = w) X -> w <> nf ->
  predict X p = Raise (ValueError "shapes not aligned").
Proof.
  intros Hp HW HX Hw Hne. now apply width_mismatch with (nf := nf) (w := w).
Qed.

End PredictFacts.

(** * The critic loss on batches it cannot build, and on empty ones *)

Section LossEdges.

Context {T : Type} `{ST : Scalar T} `{RG : RandomGen T} `{AG : Autograd T}.
Context {RL : @RandomGenLaws T RG} {AL : @AutogradLaws T AG}.

Variable G : Globals (T := T).

(** X6.  [loss_critic] raises NumPy's broadcasting [ValueError] for every
    odd batch size of at least 3 and for every batch size whose half
    exceeds the number of observed rows: the labels and the rows of the
    batch differ in number.  The global random state has served the
    draws of line 80 by then, and nothing else of the state has changed.
    Its gradient raises the same error when the global batch size is
    such. *)
Theorem loss_critic_unbalanced_raises (p : CriticParams T) (i : nat) (lam : T)
    (bs : nat) (w : World) :
  drawable (params_proposal w) = true -> critic_ok 1 p = true ->
  (Nat.odd bs = true /\ 3 <= bs) \/ n_obs < bs / 2 ->
  (exists r,
     loss_critic p i lam bs w =
       Abort shape_error
             (set_np_random r (set_history (history w ++ [EvLossCritic bs i]) w))) /\
  (batch_size G = bs ->
   exists r,
     grad_loss_critic G p i w =
       Abort shape_error
             (set_np_random r (set_history (history w ++ [EvLossCritic bs i]) w))).
Proof.
  intros Hd Hp Hb.
  assert (Hu : unbalanced bs).
  { destruct Hb as [[Ho H3]|Hl];
      [now apply odd_unbalanced | now apply large_unbalanced]. }
  split.
  - now apply loss_critic_mismatch.
  - intros <-. now apply grad_loss_critic_mismatch.
Qed.

Lemma tiny_half (bs : nat) : bs <= 1 -> bs / 2 = 0.
Proof. intros H. apply Nat.div_small. lia. Qed.

Lemma tiny_wgan (bs : nat) : bs <= 1 -> wgan (@labels T _ bs) [] = Ok (mean []).
Proof.
  intros H. destruct bs as [|[|bs]]; [reflexivity | reflexivity | lia].
Qed.

(** X7.  With a batch size of 0 or 1 [loss_critic] does not raise: no
    parameter vector is drawn, the batch has no row, and the value
    returned is the mean of an empty array plus [lambda_gp] times the mean
    of an empty array.  The global random state is as it was. *)
Theorem loss_critic_empty_batch (p : CriticParams T) (i : nat) (lam : T)
    (bs : nat) (w : World) :
  drawable (params_proposal w) = true -> critic_ok 1 p = true -> bs <= 1 ->
  loss_critic p i lam bs w =
    Done (sadd (mean []) (smul lam (mean [])))
         (set_history (history w ++ [EvLossCritic bs i]) w).
Proof.
  intros Hd Hp Hb.
  pose proof (tiny_half Hb) as Hh.
  destruct (drawable_inv _ Hd) as (mu & ls & Em & El & Hl & _).
  unfold loss_critic. rewrite bind_emit, bind_read.
  cbn [params_proposal set_history].
  erewrite bind_done.
  2:{ unfold with_global. cbn [np_random set_history].
      rewrite (gaussian_draw_ok _ _ _ Em El Hl), Hh. cbn [draws map fst snd].
      reflexivity. }
  assert (Eb : make_batch (@nil (@vec T)) i bs =
               Ok ([], [], snd (rs_permutation n_obs (rs_seed i)))).
  { rewrite (make_batch_rows (thetas := @nil (@vec T)) i bs); [|now rewrite Hh|constructor].
    unfold gen_rows, real_rows, real_indices, observed_indices.
    rewrite Hh. reflexivity. }
  assert (Ep : predict [] p = Ok []).
  { apply (predict_ok p Hp (X := [])). constructor. }
  assert (Ei : interpolate [] [] (snd (rs_permutation n_obs (rs_seed i))) bs = Ok []).
  { rewrite (interpolate_ok (Xg := []) (Xo := []));
      [|now rewrite Hh|now rewrite Hh|constructor|constructor].
    rewrite Hh. reflexivity. }
  assert (Eg : gradient_penalty [] p = Ok (mean [])).
  { unfold gradient_penalty.
    destruct (ag_elementwise_grad_ok (fun X => predict X p) [] Ep)
      as (Gx & E & S).
    rewrite E. destruct Gx; [reflexivity | discriminate S]. }
  unfold loss_critic_body, lift. rewrite Eb. cbn [rbind app]. rewrite Ep.
  cbn [rbind]. rewrite (tiny_wgan Hb). cbn [rbind]. rewrite Ei. cbn [rbind].
  rewrite Eg. cbn [rbind].
  destruct w; reflexivity.
Qed.

(** X9.  When half the batch size is at least the number of observed
    rows, the slice of line 86 keeps the whole permutation: the real part
    of the batch is a rearrangement of all of [X_obs], every row taken
    once. *)
Theorem observe_saturates (rng : RandomState) (bs : nat) :
  n_obs <= bs / 2 ->
  exists X_o rng',
    observe rng bs = Ok (X_o, rng') /\
    Permutation X_o (@X_obs T _ _) /\
    length X_o = n_obs.
Proof.
  intros Hk. rewrite observe_ok. eexists _, _. split; [reflexivity|].
  unfold observed_indices.
  rewrite firstn_all2 by (rewrite permutation_length; exact Hk).
  assert (HP : Permutation
                 (map (fun j => nth j (@X_obs T _ _) [])
                      (fst (rs_permutation n_obs rng)))
                 (@X_obs T _ _)).
  { rewrite (Permutation_map _ (rs_permutation_perm n_obs rng)).
    rewrite <- X_obs_length.
    generalize (@X_obs T _ _). intros l.
    replace (map (fun j => nth j l []) (seq 0 (length l))) with l; [reflexivity|].
    apply nth_ext with (d := []) (d' := (fun j => nth j l []) 0).
    - now rewrite length_map, length_seq.
    - intros n Hn.
      rewrite (map_nth (fun j => nth j l []) (seq 0 (length l)) 0 n).
      now rewrite seq_nth. }
  split; [exact HP|].
  rewrite (Permutation_length HP). apply X_obs_length.
Qed.

End LossEdges.

(** * The sign of each score in the Wasserstein term *)

Section SignedScores.

Context {T : Type} `{ST : Scalar T}.
Context {SL : @ScalarLaws T ST} {LL : @LabelLaws T ST}.

Local Abbreviation term :=
  (fun ls : T * T => sadd (smul (sopp (fst ls)) (snd ls))
                          (smul (ssub s1 (fst ls)) (snd ls))).

Lemma generated_terms (l : @vec T) :
  map term (combine (repeat s0 (length l)) l) = l.
Proof.
  induction l as [|x l IH]; [reflexivity|].
  cbn [length repeat combine map fst snd]. rewrite IH. f_equal.
  now rewrite sopp_0, smul_0_l, ssub_0_r, smul_1_l, sadd_0_l.
Qed.

Lemma real_terms (l : @vec T) :
  map term (combine (repeat s1 (length l)) l) = map sopp l.
Proof.
  induction l as [|x l IH]; [reflexivity|].
  cbn [length repeat combine map fst snd]. rewrite IH. f_equal.
  now rewrite smul_opp_1, ssub_diag, smul_0_l, sadd_0_r.
Qed.

(** X8.  With as many scores as labels, the Wasserstein term of line 90
    is the mean of the scores of the first [batch_size // 2] rows, the
    generated ones, and of the opposites of the scores of the other rows,
    the real ones. *)
Theorem wgan_signed (bs : nat) (y_pred : @vec T) :
  length y_pred = bs ->
  wgan (labels bs) y_pred =
    Ok (mean (firstn (bs / 2) y_pred ++ map sopp (skipn (bs / 2) y_pred))).
Proof.
  intros L. rewrite wgan_ok by now rewrite labels_length.
  f_equal. unfold wasserstein. f_equal.
  assert (Hk : bs / 2 <= bs) by (apply Nat.Div0.div_le_upper_bound; lia).
  assert (L1 : length (firstn (bs / 2) y_pred) = bs / 2)
    by (rewrite length_firstn; lia).
  assert (L2 : length (skipn (bs / 2) y_pred) = bs - bs / 2)
    by (rewrite length_skipn; lia).
  unfold labels.
  rewrite <- (firstn_skipn (bs / 2) y_pred) at 1.
  rewrite combine_app by now rewrite repeat_length.
  rewrite map_app. rewrite <- L1 at 1. rewrite <- L2 at 1.
  now rewrite generated_terms, real_terms.
Qed.

End SignedScores.

(** * What the loss and the estimator read and write *)

Section ReadsFacts.

Context {T : Type} `{ST : Scalar T} `{RG : RandomGen T} `{AG : Autograd T}.

Variable G : Globals (T := T).

Section Through.

(** A component of the state that holds the global random state and that
    the history is no part of. *)
Context {X : Type} (f : World -> X).
Hypothesis f_history : forall h w, f (set_history h w) = f w.
Hypothesis f_random : forall w1 w2, f w1 = f w2 -> np_random w1 = np_random w2.
Hypothesis f_set_random :
  forall r w1 w2, f w1 = f w2 -> f (set_np_random r w1) = f (set_np_random r w2).

Lemma reads_ret {A} (a : A) : reads_only f (ret a).
Proof. intros w1 w2 E. simpl. auto. Qed.

Lemma reads_lift {A} (r : res A) : reads_only f (lift r).
Proof. intros w1 w2 E. unfold lift. destruct r; simpl; auto. Qed.

Lemma reads_read {A} (g : World -> A) :
  (forall w1 w2, f w1 = f w2 -> g w1 = g w2) -> reads_only f (read g).
Proof. intros Hg w1 w2 E. simpl. auto. Qed.

Lemma reads_emit (e : event) : reads_only f (emit e).
Proof. intros w1 w2 E. simpl. now rewrite !f_history. Qed.

Lemma reads_with_global {A} (d : RandomState -> res (A * RandomState)) :
  reads_only f (with_global d).
Proof.
  intros w1 w2 E. unfold with_global. rewrite (f_random E).
  destruct (d (np_random w2)) as [[a r]|e]; simpl; auto.
Qed.

Lemma reads_bind {A B} (m : M A) (k : A -> M B) :
  reads_only f m -> (forall a, reads_only f (k a)) -> reads_only f (bind m k).
Proof.
  intros Hm Hk w1 w2 E. unfold bind. specialize (Hm w1 w2 E).
  destruct (m w1) as [a1 w1'|e1 w1'], (m w2) as [a2 w2'|e2 w2'];
    simpl in Hm; try contradiction.
  - destruct Hm as [<- E']. now apply Hk.
  - exact Hm.
Qed.

Lemma reads_foldW {A S} (step : S -> A -> M S) (l : list A) :
  (forall s a, reads_only f (step s a)) -> forall s, reads_only f (foldW step l s).
Proof.
  intros Hs. induction l as [|a l IH]; intros s; cbn [foldW].
  - apply reads_ret.
  - apply reads_bind; auto.
Qed.

End Through.

(** X10.  [loss_critic] and its gradient read the state through the
    global proposal parameters and the global random state only: with
    these two the same, they return the same value or raise the same
    error, whatever the global critic parameters, the optimizers and the
    loss trace are.  They write nothing but the global random state and
    the history. *)
Theorem loss_critic_reads_and_writes (p : CriticParams T) (i : nat) (lam : T)
    (bs : nat) :
  reads_only (fun w => (params_proposal w, np_random w)) (loss_critic p i lam bs) /\
  reads_only (fun w => (params_proposal w, np_random w)) (grad_loss_critic G p i) /\
  preserves stored (loss_critic p i lam bs) /\
  preserves stored (grad_loss_critic G p i).
Proof.
  set (f := fun w : World => (params_proposal w, np_random w)).
  assert (Hh : forall h w, f (set_history h w) = f w) by reflexivity.
  assert (Hr : forall w1 w2, f w1 = f w2 -> np_random w1 = np_random w2)
    by (intros w1 w2 E; exact (f_equal snd E)).
  assert (Hs : forall r w1 w2, f w1 = f w2 ->
                 f (set_np_random r w1) = f (set_np_random r w2)).
  { intros r w1 w2 E. unfold f in *. injection E as E1 _.
    cbn [set_np_random params_proposal np_random]. now rewrite E1. }
  assert (Hp : forall w1 w2, f w1 = f w2 -> params_proposal w1 = params_proposal w2)
    by (intros w1 w2 E; exact (f_equal fst E)).
  split; [|split; [|split]].
  - unfold loss_critic.
    apply reads_bind; [now apply reads_emit|]. intros _.
    apply reads_bind; [now apply reads_read|]. intros pp.
    apply reads_bind; [now apply reads_with_global|]. intros thetas.
    apply reads_lift.
  - unfold grad_loss_critic.
    apply reads_bind; [now apply reads_emit|]. intros _.
    apply reads_bind; [now apply reads_read|]. intros pp.
    apply reads_bind; [now apply reads_with_global|]. intros thetas.
    apply reads_lift.
  - apply preserves_loss_critic; reflexivity.
  - apply preserves_grad_loss_critic; reflexivity.
Qed.

(** X11.  [approx_grad_u] reads the state through the global critic
    parameters and the global random state only: with these two the same,
    it returns the same estimate or raises the same error, whatever the
    global proposal parameters, the optimizers and the loss trace are.
    It writes nothing but the global random state and the history. *)
Theorem approx_grad_u_reads_and_writes (pp : dict (@vec T)) (i : nat) :
  reads_only (fun w => (params_critic w, np_random w)) (approx_grad_u G pp i) /\
  preserves stored (approx_grad_u G pp i).
Proof.
  set (f := fun w : World => (params_critic w, np_random w)).
  assert (Hh : forall h w, f (set_history h w) = f w) by reflexivity.
  assert (Hr : forall w1 w2, f w1 = f w2 -> np_random w1 = np_random w2)
    by (intros w1 w2 E; exact (f_equal snd E)).
  assert (Hs : forall r w1 w2, f w1 = f w2 ->
                 f (set_np_random r w1) = f (set_np_random r w2)).
  { intros r w1 w2 E. unfold f in *. injection E as E1 _.
    cbn [set_np_random params_critic np_random]. now rewrite E1. }
  assert (Hp : forall w1 w2, f w1 = f w2 -> params_critic w1 = params_critic w2)
    by (intros w1 w2 E; exact (f_equal fst E)).
  split.
  - unfold approx_grad_u, approx_grad_u_gamma.
    apply reads_bind; [now apply reads_emit|]. intros _.
    apply reads_bind; [apply reads_lift|]. intros tr.
    apply reads_bind.
    + apply reads_foldW. intros gu theta. unfold sampling_body.
      apply reads_bind; [now apply reads_with_global|]. intros x.
      apply reads_bind; [now apply reads_read|]. intros pc.
      apply reads_bind; [apply reads_lift|]. intros dx.
      apply reads_bind; [apply reads_lift|]. intros gq.
      apply reads_lift.
    + intros gu.
      apply reads_bind; [apply reads_lift|]. intros ge.
      apply reads_bind; [apply reads_lift|]. intros ge'.
      apply reads_lift.
  - apply preserves_approx_grad_u; reflexivity.
Qed.

End ReadsFacts.

(** * The estimator and the loss on inputs they refuse *)

Section EstimatorEdges.

Context {T : Type} `{ST : Scalar T} `{RG : RandomGen T} `{AG : Autograd T}.
Context {RL : @RandomGenLaws T RG} {AL : @AutogradLaws T AG}.

Variable G : Globals (T := T).

(** X12.  With a global batch size of 0, [approx_grad_u] raises
    [ZeroDivisionError] at line 127: no parameter vector is drawn, [M] is
    0, and [1. / M] is evaluated for the first key.  The state is as it
    was. *)
Theorem approx_grad_u_zero_batch (pp : dict (@vec T)) (i : nat) (w : World) :
  drawable pp = true -> batch_size G = 0 ->
  approx_grad_u G pp i w =
    Abort ZeroDivisionError (set_history (history w ++ [EvApproxGradU i]) w).
Proof.
  intros Hd H0.
  destruct (drawable_inv _ Hd) as (mu & ls & Em & El & Hl & _).
  unfold approx_grad_u, approx_grad_u_gamma. rewrite bind_emit.
  rewrite (gaussian_draw_ok _ _ _ Em El Hl), H0.
  cbn [draws map fst snd]. rewrite bind_lift_ok. cbn [fst foldW length].
  unfold bind at 1. cbn [ret].
  unfold grad_gaussian_entropy. rewrite Em, El. cbn [rbind].
  rewrite bind_lift_ok.
  destruct (@add_entropy_shape T ST pp
              (map (fun kv => (fst kv, zeros (length (snd kv)))) pp)
              mu ls Em El (zeros_like_shape pp)) as (ge' & Ee & _).
  rewrite Ee, bind_lift_ok.
  destruct pp as [|[k v] pp']; [discriminate Em|].
  reflexivity.
Qed.

(** X14.  With a global critic that has a hidden unit and whose first
    layer takes another number of features than 1, [approx_grad_u] raises
    the [ValueError] of [np.dot] at its first sample, and [loss_critic]
    raises it for every batch size of at least 2: the rows the simulator
    returns have one entry. *)
Theorem one_feature_critic_needed (nf : nat) (p : CriticParams T)
    (pp : dict (@vec T)) (i : nat) (lam : T) (bs : nat) (w : World) :
  critic_ok nf p = true -> W_0 p <> [] -> nf <> 1 ->
  (drawable pp = true -> batch_size G <> 0 -> params_critic w = p ->
   exists r,
     approx_grad_u G pp i w =
       Abort (ValueError "shapes not aligned")
             (set_np_random r (set_history (history w ++ [EvApproxGradU i]) w))) /\
  (drawable (params_proposal w) = true -> 2 <= bs ->
   exists r,
     loss_critic p i lam bs w =
       Abort (ValueError "shapes not aligned")
             (set_np_random r (set_history (history w ++ [EvLossCritic bs i]) w))).
Proof.
  intros Hp HW Hnf. split.
  - intros Hd Hm Epc. subst p.
    destruct (drawn_thetas pp (batch_size G) (rs_seed i) Hd)
      as (thetas & r & Eg & Ln & HF).
    destruct thetas as [|theta thetas]; [simpl in Ln; congruence|].
    inversion HF as [|? ? H2 _]; subst.
    unfold approx_grad_u, approx_grad_u_gamma. rewrite bind_emit.
    rewrite Eg, bind_lift_ok. cbn [fst foldW].
    eexists. erewrite bind_abort; [reflexivity|].
    erewrite bind_abort; [reflexivity|].
    unfold sampling_body.
    erewrite bind_done by (apply with_global_simulator; exact H2).
    rewrite bind_read. cbn [params_critic set_np_random set_history].
    assert (Ex : forall x : T, predict [[x]] (params_critic w) =
                                 Raise (ValueError "shapes not aligned")).
    { intros x. apply width_mismatch with (nf := nf) (w := 1); auto.
      discriminate. }
    rewrite Ex. reflexivity.
  - intros Hd Hb.
    destruct (drawn_thetas (params_proposal w) (bs / 2) (np_random w) Hd)
      as (thetas & r & Eg & Ln & HF).
    assert (Hk : 1 <= bs / 2) by (apply Nat.div_le_lower_bound; lia).
    unfold loss_critic. rewrite bind_emit, bind_read.
    cbn [params_proposal set_history].
    erewrite bind_done.
    2:{ unfold with_global. cbn [np_random set_history]. rewrite Eg. reflexivity. }
    exists r. unfold loss_critic_body, lift.
    rewrite (make_batch_rows i bs Ln HF). cbn [rbind].
    assert (Ex : predict (gen_rows thetas i ++ real_rows thetas i bs) p =
                 Raise (ValueError "shapes not aligned")).
    { apply width_mismatch with (nf := nf) (w := 1); auto.
      - intros E. apply (f_equal (@length _)) in E.
        rewrite length_app, gen_rows_length in E. simpl in E. lia.
      - apply stacked_width. }
    rewrite Ex. reflexivity.
Qed.

End EstimatorEdges.

(** * The loss trace when the plot is drawn *)

Section AtThePlot.

Context {T : Type} `{ST : Scalar T} `{RG : RandomGen T} `{AG : Autograd T}.
Context {RL : @RandomGenLaws T RG} {AL : @AutogradLaws T AG}.

Variable G : Globals (T := T).

Lemma bind_assoc {A B C} (m : M A) (k : A -> M B) (h : B -> M C) (w : World) :
  bind (bind m k) h w = bind m (fun a => bind (k a) h) w.
Proof. unfold bind. destruct (m w); reflexivity. Qed.

Lemma bind_ext {A B} (m : M A) (k k' : A -> M B) (w : World) :
  (forall a w', k a w' = k' a w') -> bind m k w = bind m k' w.
Proof. intros E. unfold bind. destruct (m w); auto. Qed.

Lemma forW_app {A} (l l' : list A) (body : A -> M unit) (w : World) :
  forW (l ++ l') body w = bind (forW l body) (fun _ => forW l' body) w.
Proof.
  revert w. induction l as [|a l IH]; intros w; cbn [app forW].
  - reflexivity.
  - rewrite bind_assoc. apply bind_ext. intros _ w'. apply IH.
Qed.

Lemma seq_split (i n : nat) :
  i < n -> seq 0 n = seq 0 i ++ i :: seq (S i) (n - S i).
Proof.
  intros H. replace n with (i + S (n - S i)) at 1 by lia.
  rewrite seq_app. reflexivity.
Qed.

Lemma loop_split (i : nat) (w : World) :
  i < n_epochs G -> training_loop G w = bind (until_plot G i) (fun _ => from_plot G i) w.
Proof.
  intros H. unfold training_loop, until_plot, from_plot.
  rewrite (seq_split H).
  rewrite !bind_assoc. apply bind_ext. intros _ w1.
  rewrite !bind_assoc. apply bind_ext. intros _ w2.
  rewrite !bind_assoc. apply bind_ext. intros _ w3.
  rewrite forW_app, !bind_assoc. apply bind_ext. intros _ w4.
  cbn [forW]. unfold epoch at 1.
  rewrite !bind_assoc. apply bind_ext. intros _ w5.
  rewrite !bind_assoc. reflexivity.
Qed.

Lemma until_plot_runs (i : nat) (w : World) :
  globals_ok G -> world_ok 0 0 w ->
  exists tr,
    runs (until_plot G i) w tr (fun _ w' => length (loss_d w') = i + 1).
Proof.
  intros HG Hw. unfold until_plot. eexists.
  eapply runs_bind; [exact (critic_step_runs 100 HG Hw)|].
  intros _ w1 [Hw1 _].
  eapply runs_bind; [exact (critic_move_to_runs Hw1)|].
  intros _ w2 (Hw2 & _).
  unfold bind at 1. cbn [modify].
  assert (Hw3 : world_ok (0 + 100) 0 (set_loss_d [] w2))
    by (eapply world_ok_frame; [| | | |exact Hw2]; reflexivity).
  eapply runs_bind; [exact (epochs_run i HG Hw3)|].
  intros _ w4 ((ci & Hw4) & L4).
  eapply runs_bind; [exact (fit_runs HG Hw4)|].
  intros _ w5 (Hw5 & L5).
  eapply runs_weaken; [exact (record_diagnostic_runs G i Hw5)|].
  intros _ w6 (_ & _ & _ & _ & _ & l & w' & _ & L6).
  rewrite L6, length_app, L5, L4. reflexivity.
Qed.

(** X13.  When pass [i] of the loop reaches its plot, [loss_d] holds
    exactly [i + 1] values, as many as [np.arange(i+1)] at line 186: the
    loop is the commands up to that point followed by the plot and the
    remaining passes, and those commands return with a trace of that
    length. *)
Theorem loss_trace_length_at_plot (i : nat) (w : World) :
  globals_ok G -> world_ok 0 0 w -> i < n_epochs G ->
  training_loop G w = bind (until_plot G i) (fun _ => from_plot G i) w /\
  exists w',
    until_plot G i w = Done tt w' /\
    length (loss_d w') = length (seq 0 (i + 1)).
Proof.
  intros HG Hw Hi. split; [now apply loop_split|].
  destruct (until_plot_runs i HG Hw) as (tr & [] & w' & E & _ & L).
  exists w'. split; [exact E|]. now rewrite length_seq.
Qed.

End AtThePlot.

(** * The further results on the concrete instance *)

Module Checks.

Import Example ExampleLaws Cases.

Local Abbreviation st5 := (5%Z : @RandomState Qc toy_random).

#[export] Instance Qc_label_laws : @LabelLaws Qc Qc_scalar.
Proof.
  split; simpl; intros.
  - reflexivity.
  - ring.
  - ring.
  - ring.
  - ring.
Qed.

(** X1 on a vector with three entries. *)
Lemma simulator_shape_witness :
  2 <= length [Q2Qc 0; Q2Qc 0; Q2Qc 7] /\
  exists X r',
    simulator [Q2Qc 0; Q2Qc 0; Q2Qc 7] 3 st5 = Ok (X, r') /\
    length X = 3.
Proof.
  assert (H : 2 <= length [Q2Qc 0; Q2Qc 0; Q2Qc 7]) by (simpl; lia).
  split; [exact H|].
  destruct (simulator_shape [Q2Qc 0; Q2Qc 0; Q2Qc 7] 3 st5 H)
    as (X & r' & E & L & _).
  exists X, r'. auto.
Defined.

(** X2 on a vector with one entry, for no sample. *)
Lemma simulator_short_theta_witness :
  length [Q2Qc 0] < 2 /\
  simulator [Q2Qc 0] 0 st5 = Raise IndexError.
Proof.
  assert (H : length [Q2Qc 0] < 2) by (simpl; lia).
  split; [exact H|].
  exact (simulator_short_theta [Q2Qc 0] 0 st5 H).
Defined.

(** X4 on a batch of one row stacked on a batch of two. *)
Lemma predict_rowwise_witness :
  (critic_ok 1 critic0 = true /\
   Forall (fun row : list Qc => length row = 1) [[Q2Qc 1]] /\
   Forall (fun row : list Qc => length row = 1) [[Q2Qc 2]; [Q2Qc 3]]) /\
  exists sx sy,
    predict ([[Q2Qc 1]] ++ [[Q2Qc 2]; [Q2Qc 3]]) critic0 = Ok (sx ++ sy) /\
    length sx = 1 /\ length sy = 2.
Proof.
  assert (H1 : critic_ok 1 critic0 = true) by reflexivity.
  assert (H2 : Forall (fun row : list Qc => length row = 1) [[Q2Qc 1]])
    by (repeat constructor).
  assert (H3 : Forall (fun row : list Qc => length row = 1) [[Q2Qc 2]; [Q2Qc 3]])
    by (repeat constructor).
  split; [auto|].
  destruct (predict_rowwise critic0 H1 H2 H3) as (sx & sy & _ & _ & Lx & Ly & E).
  exists sx, sy. auto.
Defined.

(** X5 on a row with two entries given to the one-feature critic. *)
Lemma predict_width_mismatch_witness :
  (critic_ok 1 critic0 = true /\ W_0 critic0 <> [] /\
   [[Q2Qc 1; Q2Qc 2]] <> [] /\
   Forall (fun row : list Qc => length row = 2) [[Q2Qc 1; Q2Qc 2]] /\ 2 <> 1) /\
  predict [[Q2Qc 1; Q2Qc 2]] critic0 = Raise (ValueError "shapes not aligned").
Proof.
  assert (H1 : critic_ok 1 critic0 = true) by reflexivity.
  assert (H2 : W_0 critic0 <> []) by discriminate.
  assert (H3 : [[Q2Qc 1; Q2Qc 2]] <> []) by discriminate.
  assert (H4 : Forall (fun row : list Qc => length row = 2) [[Q2Qc 1; Q2Qc 2]])
    by (repeat constructor).
  assert (H5 : 2 <> 1) by lia.
  split; [auto|].
  exact (predict_width_mismatch critic0 H1 H2 H3 H4 H5).
Defined.

(** X6 at a batch size of 3. *)
Lemma loss_critic_unbalanced_raises_witness :
  (drawable (params_proposal (world0 5)) = true /\ critic_ok 1 critic0 = true /\
   ((Nat.odd 3 = true /\ 3 <= 3) \/ n_obs < 3 / 2)) /\
  exists w',
    loss_critic critic0 0 (lit (25 # 1000)) 3 (world0 5) = Abort shape_error w'.
Proof.
  assert (H1 : drawable (params_proposal (world0 5)) = true) by reflexivity.
  assert (H2 : critic_ok 1 critic0 = true) by reflexivity.
  assert (H3 : (Nat.odd 3 = true /\ 3 <= 3) \/ n_obs < 3 / 2)
    by (left; split; [reflexivity | lia]).
  split; [auto|].
  destruct (loss_critic_unbalanced_raises odd_globals critic0 0 (lit (25 # 1000))
              (bs := 3) (world0 5) H1 H2 H3) as [[r E] _].
  eexists. exact E.
Defined.

(** X7 at a batch size of 1. *)
Lemma loss_critic_empty_batch_witness :
  (drawable (params_proposal (world0 5)) = true /\ critic_ok 1 critic0 = true /\
   1 <= 1) /\
  exists l w', loss_critic critic0 0 (lit (25 # 1000)) 1 (world0 5) = Done l w'.
Proof.
  assert (H1 : drawable (params_proposal (world0 5)) = true) by reflexivity.
  assert (H2 : critic_ok 1 critic0 = true) by reflexivity.
  assert (H3 : 1 <= 1) by lia.
  split; [auto|].
  eexists _, _.
  exact (loss_critic_empty_batch critic0 0 (lit (25 # 1000)) (world0 5) H1 H2 H3).
Defined.

(** X8 on one generated and one real score. *)
Lemma wgan_signed_witness :
  length [Q2Qc 1; Q2Qc 3] = 2 /\
  wgan (labels 2) [Q2Qc 1; Q2Qc 3] = Ok (mean ([Q2Qc 1] ++ [sopp (Q2Qc 3)])).
Proof.
  assert (H : length [Q2Qc 1; Q2Qc 3] = 2) by reflexivity.
  split; [exact H|].
  exact (wgan_signed (SL := Qc_laws) (LL := Qc_label_laws) [Q2Qc 1; Q2Qc 3] H).
Defined.

(** X9 at a batch size of 40000. *)
Lemma observe_saturates_witness :
  n_obs <= Z.to_nat 40000 / 2 /\
  exists X_o rng',
    observe st5 (Z.to_nat 40000) = Ok (X_o, rng') /\
    Permutation X_o (@X_obs Qc _ _).
Proof.
  assert (H : n_obs <= Z.to_nat 40000 / 2).
  { unfold n_obs. replace (Z.to_nat 40000) with (2 * Z.to_nat 20000) by lia.
    rewrite Nat.mul_comm, Nat.div_mul by lia. lia. }
  split; [exact H|].
  destruct (observe_saturates st5 (Z.to_nat 40000) H) as (X_o & rng' & E & P & _).
  exists X_o, rng'. auto.
Defined.

(** X12 with the script's other constants. *)
Lemma approx_grad_u_zero_batch_witness :
  (drawable proposal0 = true /\ batch_size zero_globals = 0) /\
  exists w',
    approx_grad_u zero_globals proposal0 0 (world0 5) = Abort ZeroDivisionError w'.
Proof.
  assert (H1 : drawable proposal0 = true) by reflexivity.
  assert (H2 : batch_size zero_globals = 0) by reflexivity.
  split; [auto|].
  eexists.
  exact (approx_grad_u_zero_batch zero_globals proposal0 0 (world0 5) H1 H2).
Defined.

(** X13 at the script's constants, for the third pass. *)
Lemma loss_trace_length_at_plot_witness :
  (globals_ok (@source_globals Qc _) /\ world_ok 0 0 (world1 5) /\
   2 < n_epochs (@source_globals Qc _)) /\
  exists w',
    until_plot source_globals 2 (world1 5) = Done tt w' /\
    length (loss_d w') = 3.
Proof.
  assert (H3 : 2 < n_epochs (@source_globals Qc _)) by (simpl; lia).
  split; [auto using Runs.source_globals_ok, Runs.world1_ok|].
  destruct (loss_trace_length_at_plot Runs.source_globals_ok (Runs.world1_ok 5) H3)
    as (_ & w' & E & L).
  exists w'. auto.
Defined.

(** X14 on a critic whose first layer takes two features. *)
Lemma one_feature_critic_needed_witness :
  (critic_ok 2 critic2 = true /\ W_0 critic2 <> [] /\ 2 <> 1) /\
  (exists w',
     approx_grad_u source_globals proposal0 0 (world2 5) =
       Abort (ValueError "shapes not aligned") w') /\
  (exists w',
     loss_critic critic2 0 (lit (25 # 1000)) 64 (world2 5) =
       Abort (ValueError "shapes not aligned") w').
Proof.
  assert (H1 : critic_ok 2 critic2 = true) by reflexivity.
  assert (H2 : W_0 critic2 <> []) by discriminate.
  assert (H3 : 2 <> 1) by lia.
  split; [auto|].
  destruct (one_feature_critic_needed source_globals critic2 proposal0 0
              (lit (25 # 1000)) 64 (world2 5) H1 H2 H3) as [Ha Hl].
  split.
  - destruct Ha as [r E]; [reflexivity | simpl; lia | reflexivity|].
    eexists. exact E.
  - destruct Hl as [r E]; [reflexivity | simpl; lia|].
    eexists. exact E.
Defined.

End Checks.
